(** * A shallow embedding of the audio player with visualiser

    The files embedded here are
    - [src/unnamed/part_001] (the module [utils/audioContext.js]: module
      level [audioContext], [analyser], [dataArray], [source], [gainNode]
      and the functions that construct, sample and tear down the graph);
    - [src/src/components/Visualizer.jsx] ([drawBars], [drawWaveform] and
      the animation loop [animate] with its effects).

    JavaScript numbers are modelled by [Q] extended with the special values
    the code can reach (a division by zero gives [NaN] or an infinity);
    rounding of IEEE doubles is not modelled. Bytes of a [Uint8Array] are
    [Z] values in [0, 255]. *)

From Stdlib Require Import ZArith QArith Qround Ascii String List Bool Lia.
From Stdlib Require DecimalZ.
Import ListNotations.
Open Scope Z_scope.

(* ------------------------------------------------------------------ *)
(** ** JavaScript numbers *)

Inductive jsnum :=
| Num (q : Q)
| NaN
| PosInf
| NegInf.

(** [a / b] on numbers that are integers in the source. *)
Definition js_div (a b : Z) : jsnum :=
  if Z.eqb b 0 then
    if Z.eqb a 0 then NaN else if Z.ltb 0 a then PosInf else NegInf
  else Num (inject_Z a / inject_Z b).

(** [x > t] where [t] is a finite number. *)
Definition js_gt (x : jsnum) (t : Q) : bool :=
  match x with
  | Num q => negb (Qle_bool q t)
  | NaN => false
  | PosInf => true
  | NegInf => false
  end.

(* ------------------------------------------------------------------ *)
(** ** Frequency snapshots and the band getters *)

(** A snapshot: the contents of the [Uint8Array] [dataArray]. *)
Definition snapshot := list Z.

(** [for (let i = start; i < end; i++) sum += frequencyData[i];]
    starting from [sum = 0]. *)
Definition sum_range (d : snapshot) (start end_ : nat) : Z :=
  fold_left (fun acc i => acc + nth i d 0) (seq start (end_ - start)) 0.

(** The divisors of the three getters, as the source computes them from
    [frequencyData.length]; [Math.floor(n / 8)] is [n / 8] on [nat]. *)
Definition bass_end (n : nat) : nat := (n / 8)%nat.
Definition mid_start (n : nat) : nat := (n / 8)%nat.
Definition mid_end (n : nat) : nat := (n * 5 / 8)%nat.
Definition treble_start (n : nat) : nat := (n * 5 / 8)%nat.

Definition bass_divisor (n : nat) : nat := bass_end n.
Definition mid_divisor (n : nat) : nat := (mid_end n - mid_start n)%nat.
Definition treble_divisor (n : nat) : nat := (n - treble_start n)%nat.

(** [getBassFrequency], [getMidFrequency], [getTrebleFrequency] on the
    value [getFrequencyData()] returned: [null] gives [0]. *)
Definition getBassFrequency (fd : option snapshot) : jsnum :=
  match fd with
  | None => Num 0
  | Some d =>
      let bassRange := bass_end (length d) in
      js_div (sum_range d 0 bassRange) (Z.of_nat (bass_divisor (length d)))
  end.

Definition getMidFrequency (fd : option snapshot) : jsnum :=
  match fd with
  | None => Num 0
  | Some d =>
      js_div (sum_range d (mid_start (length d)) (mid_end (length d)))
             (Z.of_nat (mid_divisor (length d)))
  end.

Definition getTrebleFrequency (fd : option snapshot) : jsnum :=
  match fd with
  | None => Num 0
  | Some d =>
      js_div (sum_range d (treble_start (length d)) (length d))
             (Z.of_nat (treble_divisor (length d)))
  end.

(** Following the spec's words: the samples of a band and their mean. *)
Definition slice (d : snapshot) (start end_ : nat) : list Z :=
  firstn (end_ - start) (skipn start d).

Definition sum (l : list Z) : Z := fold_right Z.add 0 l.

Definition mean (l : list Z) : Q :=
  inject_Z (sum l) / inject_Z (Z.of_nat (length l)).

(** Band membership of an index, by the ranges the getters iterate. *)
Definition in_range (i start end_ : nat) : bool :=
  (Nat.leb start i && Nat.ltb i end_)%bool.

Definition in_bass (n i : nat) : bool := in_range i 0 (bass_end n).
Definition in_mid (n i : nat) : bool := in_range i (mid_start n) (mid_end n).
Definition in_treble (n i : nat) : bool := in_range i (treble_start n) n.

(* ------------------------------------------------------------------ *)
(** ** The Web Audio world

    Audio contexts, audio nodes and media elements are objects of the
    browser; the model names each by a [nat] identity. The destination
    node of a context is named by the context's own identity. *)

Inductive CtxState := Suspended | Running | Closed.

Definition CtxState_eqb (x y : CtxState) : bool :=
  match x, y with
  | Suspended, Suspended | Running, Running | Closed, Closed => true
  | _, _ => false
  end.

Record World := mkWorld {
  w_next : nat;                      (** next fresh object identity *)
  w_time : Q;                        (** [audioContext.currentTime] *)
  w_ctx : list (nat * CtxState);     (** [state] of each context *)
  w_tapped : list (nat * nat);       (** media element, its source node *)
  w_edges : list (nat * nat);        (** [node.connect(other)] *)
  w_gain : list (nat * list (Q * Q)) (** [gain] automation events, newest first *)
}.

(** The module level variables of [utils/audioContext.js]; [dataArray]
    holds the contents of the [Uint8Array]. *)
Record Mod := mkMod {
  audioContext : option nat;
  analyser : option nat;
  dataArray : option snapshot;
  source : option nat;
  gainNode : option nat
}.

Record St := mkSt { st_mod : Mod; st_world : World }.

Definition initial_world : World := mkWorld 0 0 [] [] [] [].
Definition initial_mod : Mod := mkMod None None None None None.
Definition initial_state : St := mkSt initial_mod initial_world.

(** Association lists keyed by identities. *)
Fixpoint lookup {A} (k : nat) (l : list (nat * A)) : option A :=
  match l with
  | [] => None
  | (k', v) :: l' => if Nat.eqb k k' then Some v else lookup k l'
  end.

Definition put {A} (k : nat) (v : A) (l : list (nat * A)) : list (nat * A) :=
  (k, v) :: filter (fun kv => negb (Nat.eqb (fst kv) k)) l.

Definition has_edge (a b : nat) (w : World) : bool :=
  existsb (fun e => Nat.eqb (fst e) a && Nat.eqb (snd e) b) (w_edges w).

(* ------------------------------------------------------------------ *)
(** ** A state and exception monad for the module's code *)

Inductive Res (A : Type) :=
| Ok (a : A)
| Throw (e : string).
Arguments Ok {A} a.
Arguments Throw {A} e.

Definition M (A : Type) := St -> Res A * St.

Definition ret {A} (a : A) : M A := fun s => (Ok a, s).
Definition throw {A} (e : string) : M A := fun s => (Throw e, s).
Definition bind {A B} (m : M A) (k : A -> M B) : M B :=
  fun s => match m s with
           | (Ok a, s') => k a s'
           | (Throw e, s') => (Throw e, s')
           end.

Notation "x <- m ;; k" := (bind m (fun x => k))
  (at level 61, m at next level, right associativity).
Notation "m ;;; k" := (bind m (fun _ => k))
  (at level 61, right associativity).

(** [try { m } catch (e) { h(e) }] *)
Definition try_catch {A} (m : M A) (h : string -> M A) : M A :=
  fun s => match m s with
           | (Ok a, s') => (Ok a, s')
           | (Throw e, s') => h e s'
           end.

Definition get_mod : M Mod := fun s => (Ok (st_mod s), s).
Definition get_world : M World := fun s => (Ok (st_world s), s).
Definition modify_mod (f : Mod -> Mod) : M unit :=
  fun s => (Ok tt, mkSt (f (st_mod s)) (st_world s)).
Definition modify_world (f : World -> World) : M unit :=
  fun s => (Ok tt, mkSt (st_mod s) (f (st_world s))).

Definition set_audioContext (v : option nat) : M unit :=
  modify_mod (fun m => mkMod v (analyser m) (dataArray m) (source m) (gainNode m)).
Definition set_analyser (v : option nat) : M unit :=
  modify_mod (fun m => mkMod (audioContext m) v (dataArray m) (source m) (gainNode m)).
Definition set_dataArray (v : option snapshot) : M unit :=
  modify_mod (fun m => mkMod (audioContext m) (analyser m) v (source m) (gainNode m)).
Definition set_source (v : option nat) : M unit :=
  modify_mod (fun m => mkMod (audioContext m) (analyser m) (dataArray m) v (gainNode m)).
Definition set_gainNode (v : option nat) : M unit :=
  modify_mod (fun m => mkMod (audioContext m) (analyser m) (dataArray m) (source m) v).

(* ------------------------------------------------------------------ *)
(** ** Browser primitives *)

Definition fresh : M nat :=
  fun s => let w := st_world s in
           (Ok (w_next w),
            mkSt (st_mod s)
                 (mkWorld (S (w_next w)) (w_time w) (w_ctx w) (w_tapped w)
                          (w_edges w) (w_gain w))).

Definition set_ctx_state (c : nat) (st : CtxState) : M unit :=
  modify_world (fun w => mkWorld (w_next w) (w_time w) (put c st (w_ctx w))
                                 (w_tapped w) (w_edges w) (w_gain w)).

(** [new AudioContext()]; the autoplay policy lets a context start in the
    [suspended] state. *)
Definition new_AudioContext : M nat :=
  c <- fresh ;; set_ctx_state c Suspended ;;; ret c.

(** [audioContext.state]; every context the module holds was registered
    when it was created. *)
Definition ctx_state (c : nat) : M CtxState :=
  w <- get_world ;;
  ret (match lookup c (w_ctx w) with Some st => st | None => Running end).

(** The call [audioContext.resume()]: it returns a promise and changes
    nothing the code can observe before it returns; the context starts
    later, if the browser lets it ([resume_settles]). *)
Definition ctx_resume (c : nat) : M unit := ret tt.

(** How the browser settles a [resume()] promise: it starts the context
    and resolves, rejects it (the context was closed meanwhile, or its
    document is no longer active), or leaves it pending (the autoplay
    policy waits for a user gesture). *)
Inductive ResumeOutcome := Resolves | Rejects | StaysPending.

(** [await audioContext.resume()]: [Some tt] once the promise resolved,
    [None] while it is pending; a rejection is thrown. The state becomes
    ["running"] before the promise resolves. *)
Definition resume_settles (c : nat) (o : ResumeOutcome) : M (option unit) :=
  match o with
  | Resolves => set_ctx_state c Running ;;; ret (Some tt)
  | Rejects => throw "InvalidStateError"
  | StaysPending => ret None
  end.

(** [await audioContext.close()] *)
Definition ctx_close (c : nat) : M unit := set_ctx_state c Closed.

Definition destination (c : nat) : nat := c.

Definition createAnalyser (c : nat) : M nat := fresh.

Definition createGain (c : nat) : M nat :=
  g <- fresh ;;
  modify_world (fun w => mkWorld (w_next w) (w_time w) (w_ctx w) (w_tapped w)
                                 (w_edges w) (put g [] (w_gain w))) ;;;
  ret g.

(** [audioContext.createMediaElementSource(el)]: the platform refuses a
    second source node for an element that already has one
    ([InvalidStateError]). *)
Definition createMediaElementSource (c el : nat) : M nat :=
  w <- get_world ;;
  match lookup el (w_tapped w) with
  | Some _ => throw "InvalidStateError"
  | None =>
      n <- fresh ;;
      modify_world (fun w => mkWorld (w_next w) (w_time w) (w_ctx w)
                                     ((el, n) :: w_tapped w) (w_edges w) (w_gain w)) ;;;
      ret n
  end.

(** [a.connect(b)]: connecting the same pair twice is ignored. *)
Definition connect (a b : nat) : M unit :=
  w <- get_world ;;
  if has_edge a b w then ret tt
  else modify_world (fun w => mkWorld (w_next w) (w_time w) (w_ctx w) (w_tapped w)
                                      ((a, b) :: w_edges w) (w_gain w)).

(** [a.disconnect()]: removes every outgoing connection of [a]. *)
Definition disconnect (a : nat) : M unit :=
  modify_world (fun w => mkWorld (w_next w) (w_time w) (w_ctx w) (w_tapped w)
                                 (filter (fun e => negb (Nat.eqb (fst e) a)) (w_edges w))
                                 (w_gain w)).

Definition gain_events (g : nat) (w : World) : list (Q * Q) :=
  match lookup g (w_gain w) with Some evs => evs | None => [] end.

(** [gainNode.gain.setValueAtTime(v, t)] *)
Definition setValueAtTime (g : nat) (v t : Q) : M unit :=
  modify_world (fun w => mkWorld (w_next w) (w_time w) (w_ctx w) (w_tapped w)
                                 (w_edges w) (put g ((v, t) :: gain_events g w) (w_gain w))).

(** [analyser.getByteFrequencyData(array)] (and the time domain variant):
    the analyser writes its current bins into the array; bins beyond the
    array are dropped, array elements beyond the bins are left alone. *)
Definition byte_copy (bins da : snapshot) : snapshot :=
  firstn (length da) bins ++ skipn (length bins) da.

(* ------------------------------------------------------------------ *)
(** ** [utils/audioContext.js] *)

Definition fftSize : nat := 256.
Definition frequencyBinCount : nat := (fftSize / 2)%nat.

Definition get_or_create_context : M nat :=
  m <- get_mod ;;
  match audioContext m with
  | Some c => ret c
  | None => c <- new_AudioContext ;; set_audioContext (Some c) ;;; ret c
  end.

Definition get_or_create_analyser (c : nat) : M nat :=
  m <- get_mod ;;
  match analyser m with
  | Some a => ret a
  | None => a <- createAnalyser c ;; set_analyser (Some a) ;;; ret a
  end.

Definition get_or_create_gain (c : nat) : M nat :=
  m <- get_mod ;;
  match gainNode m with
  | Some g => ret g
  | None => g <- createGain c ;; set_gainNode (Some g) ;;; ret g
  end.

(** [initializeAudioContext(audioElement)]; the result is the returned
    object's [isInitialized]. *)
Definition initializeAudioContext (audioElement : option nat) : M bool :=
  try_catch
    (c <- get_or_create_context ;;
     st <- ctx_state c ;;
     (if CtxState_eqb st Suspended then ctx_resume c else ret tt) ;;;
     a <- get_or_create_analyser c ;;
     g <- get_or_create_gain c ;;
     m <- get_mod ;;
     (match source m, audioElement with
      | None, Some el =>
          n <- createMediaElementSource c el ;;
          set_source (Some n) ;;;
          connect n a ;;; connect a g ;;; connect g (destination c)
      | _, _ => ret tt
      end) ;;;
     set_dataArray (Some (repeat 0 frequencyBinCount)) ;;;
     ret true)
    (fun _ => ret false).

(** [connectAnalyzer(audioElement)]; no [try]: an exception propagates. *)
Definition connectAnalyzer (audioElement : nat) : M nat :=
  c <- get_or_create_context ;;
  a <- get_or_create_analyser c ;;
  g <- get_or_create_gain c ;;
  newSource <- createMediaElementSource c audioElement ;;
  connect newSource a ;;; connect a g ;;; connect g (destination c) ;;;
  set_source (Some newSource) ;;;
  ret a.

(** [getFrequencyData()], given the analyser's current frequency bins. *)
Definition getFrequencyData (bins : snapshot) : M (option snapshot) :=
  m <- get_mod ;;
  match analyser m, dataArray m with
  | Some _, Some da =>
      try_catch
        (let da' := byte_copy bins da in
         set_dataArray (Some da') ;;; ret (Some da'))
        (fun _ => ret None)
  | _, _ => ret None
  end.

(** [getTimeDomainData()], given the analyser's current waveform. *)
Definition getTimeDomainData (wave : snapshot) : M (option snapshot) :=
  m <- get_mod ;;
  match analyser m, dataArray m with
  | Some _, Some da =>
      try_catch
        (let da' := byte_copy wave da in
         set_dataArray (Some da') ;;; ret (Some da'))
        (fun _ => ret None)
  | _, _ => ret None
  end.

Definition math_min (x y : Q) : Q := if Qle_bool x y then x else y.
Definition math_max (x y : Q) : Q := if Qle_bool y x then x else y.

(** [Math.max(0, Math.min(1, volume))] *)
Definition clampVolume (volume : Q) : Q := math_max 0 (math_min 1 volume).

(** [setVolume(volume)]; [audioContext.currentTime] on a [null] context
    raises a [TypeError], which the [catch] swallows. *)
Definition setVolume (volume : Q) : M unit :=
  m <- get_mod ;;
  match gainNode m with
  | None => ret tt
  | Some g =>
      try_catch
        (let clampedVolume := clampVolume volume in
         match audioContext m with
         | None => throw "TypeError"
         | Some _ => w <- get_world ;; setValueAtTime g clampedVolume (w_time w)
         end)
        (fun _ => ret tt)
  end.

Definition getBassFrequency_st (bins : snapshot) : M jsnum :=
  fd <- getFrequencyData bins ;; ret (getBassFrequency fd).

(** [detectBeat(threshold = 200)] *)
Definition detectBeat (threshold : option Q) (bins : snapshot) : M bool :=
  let t := match threshold with Some t => t | None => 200%Q end in
  bassLevel <- getBassFrequency_st bins ;;
  ret (js_gt bassLevel t).

(** [cleanupAudioContext()]; the [await] on [close()] resolves. *)
Definition cleanupAudioContext : M unit :=
  try_catch
    (m <- get_mod ;;
     (match source m with
      | Some n => disconnect n ;;; set_source None
      | None => ret tt
      end) ;;;
     m <- get_mod ;;
     (match analyser m with
      | Some a => disconnect a ;;; set_analyser None
      | None => ret tt
      end) ;;;
     m <- get_mod ;;
     (match gainNode m with
      | Some g => disconnect g ;;; set_gainNode None
      | None => ret tt
      end) ;;;
     m <- get_mod ;;
     (match audioContext m with
      | Some c =>
          st <- ctx_state c ;;
          if CtxState_eqb st Closed then ret tt
          else ctx_close c ;;; set_audioContext None
      | None => ret tt
      end) ;;;
     set_dataArray None)
    (fun _ => ret tt).

(* ------------------------------------------------------------------ *)
(** ** Repeated construct/bind calls for one element *)

Inductive BindOp :=
| OInit            (** [initializeAudioContext(el)] *)
| OInitNoElement   (** [initializeAudioContext()] *)
| OConnect.        (** [connectAnalyzer(el)]; a caller may catch its error *)

Definition bind_op (el : nat) (o : BindOp) (s : St) : St :=
  match o with
  | OInit => snd (initializeAudioContext (Some el) s)
  | OInitNoElement => snd (initializeAudioContext None s)
  | OConnect => snd (connectAnalyzer el s)
  end.

Definition run_binds (el : nat) (ops : list BindOp) (s : St) : St :=
  fold_left (fun s o => bind_op el o s) ops s.

Definition is_key (el : nat) (p : nat * nat) : bool := Nat.eqb (fst p) el.

(** Source nodes of element [el] ([w_tapped]), and how many of them carry
    a signal path source -> analyser -> gain -> destination of the module's
    graph. *)
Definition tapped_count (el : nat) (w : World) : nat :=
  length (filter (is_key el) (w_tapped w)).

Definition signal_paths (el : nat) (s : St) : nat :=
  let w := st_world s in
  match audioContext (st_mod s), analyser (st_mod s), gainNode (st_mod s) with
  | Some c, Some a, Some g =>
      length (filter (fun p => is_key el p &&
                                 (has_edge (snd p) a w && has_edge a g w
                                  && has_edge g (destination c) w))
                     (w_tapped w))
  | _, _, _ => 0
  end.

(** The module's graph taps [el]: one source node for [el], held in
    [source] and wired through the analyser and the gain to the
    destination. *)
Definition Bound (el : nat) (s : St) : Prop :=
  let w := st_world s in
  exists c a g n,
    audioContext (st_mod s) = Some c /\ analyser (st_mod s) = Some a /\
    gainNode (st_mod s) = Some g /\ source (st_mod s) = Some n /\
    tapped_count el w = 1%nat /\ lookup el (w_tapped w) = Some n /\
    has_edge n a w = true /\ has_edge a g w = true /\
    has_edge g (destination c) w = true.

(* ------------------------------------------------------------------ *)
(** ** Canvas drawing ([components/Visualizer.jsx])

    A 2D context is modelled by the list of calls made on it. A drawing
    function that raises an exception is modelled by [Throw]; the calls it
    made before the exception are not recorded. *)

Open Scope Q_scope.

Inductive Gradient :=
| LinearGradient (x0 y0 x1 y1 : Q) (stops : list (Q * string)).

Inductive Cmd :=
| ClearRect (x y w h : Q)
| SetFillStyle (g : Gradient)
| SetStrokeStyle (g : Gradient)
| SetLineWidth (w : Q)
| SetLineCap (s : string)
| SetLineJoin (s : string)
| BeginPath
| RoundRect (x y w h : Q) (radii : list Q)
| MoveTo (x y : Q)
| LineTo (x y : Q)
| Fill
| Stroke
| SetShadowColor (c : string)
| SetShadowBlur (b : Q).

Record Canvas := mkCanvas { c_width : Q; c_height : Q }.

(** CSS colors in hexadecimal notation: a ['#'] followed by hexadecimal
    digits only. [hash_hex_digits s] is the number of digits when [s] has
    this form. *)
Definition is_hex_digit (c : ascii) : bool :=
  let n := nat_of_ascii c in
  ((Nat.leb 48 n && Nat.leb n 57) || (Nat.leb 65 n && Nat.leb n 70)
   || (Nat.leb 97 n && Nat.leb n 102))%bool.

Fixpoint all_hex (s : string) : bool :=
  match s with
  | EmptyString => true
  | String c s' => (is_hex_digit c && all_hex s')%bool
  end.

Definition hash_hex_digits (s : string) : option nat :=
  match s with
  | String c rest =>
      if (Ascii.eqb c "#"%char && all_hex rest)%bool then Some (String.length rest)
      else None
  | EmptyString => None
  end.

Section Canvas2D.

(** The browser's CSS color parser on the strings that are not a ['#']
    followed by hexadecimal digits only (named colors, [rgb()], [hsl()],
    ...): what is proved holds whatever it accepts. *)
Variable css_color_other : string -> bool.

(** Whether a string parses as a CSS color: a ['#'] followed by
    hexadecimal digits only is a color exactly when it has 3, 4, 6 or 8
    digits. *)
Definition css_color (s : string) : bool :=
  match hash_hex_digits s with
  | Some k => (Nat.eqb k 3 || Nat.eqb k 4 || Nat.eqb k 6 || Nat.eqb k 8)%bool
  | None => css_color_other s
  end.

(** [ctx.roundRect(x, y, w, h, radii)] raises a [RangeError] when the
    radii list has not 1 to 4 entries or one of them is negative. *)
Definition roundRect (x y w h : Q) (radii : list Q) : Res Cmd :=
  if (Nat.leb 1 (length radii) && Nat.leb (length radii) 4
      && forallb (fun r => Qle_bool 0 r) radii)%bool
  then Ok (RoundRect x y w h radii)
  else Throw "RangeError".

Definition byte_at (d : snapshot) (i : nat) : Q := inject_Z (nth i d 0%Z).

Definition Q_of_nat (n : nat) : Q := inject_Z (Z.of_nat n).

(** One iteration of the loop of [drawBars]. *)
Definition bar_cmds (color : string) (sensitivity width height barWidth : Q)
    (d : snapshot) (i : nat) : Res (list Cmd) :=
  let barHeight := (byte_at d i / 255) * height * sensitivity in
  let x := Q_of_nat i * barWidth in
  let y := height - barHeight in
  match roundRect (x + 1) y (barWidth - 2) barHeight [2; 2; 0; 0] with
  | Throw e => Throw e
  | Ok rr =>
      Ok [BeginPath; rr; Fill; SetShadowColor color; SetShadowBlur 10; Fill;
          SetShadowBlur 0]
  end.

Fixpoint run_loop {A} (body : nat -> Res (list A)) (is : list nat) : Res (list A) :=
  match is with
  | [] => Ok []
  | i :: is' =>
      match body i with
      | Throw e => Throw e
      | Ok cs =>
          match run_loop body is' with
          | Throw e => Throw e
          | Ok cs' => Ok (cs ++ cs')
          end
      end
  end.

(** [gradient.addColorStop(offset, color)]: an [IndexSizeError] when the
    offset is outside [[0, 1]], a [SyntaxError] when [color] does not parse
    as a CSS color. *)
Definition addColorStop (g : Gradient) (offset : Q) (color : string) : Res Gradient :=
  if negb (Qle_bool 0 offset && Qle_bool offset 1) then Throw "IndexSizeError"
  else if negb (css_color color) then Throw "SyntaxError"
  else match g with
       | LinearGradient x0 y0 x1 y1 stops =>
           Ok (LinearGradient x0 y0 x1 y1 (stops ++ [(offset, color)]))
       end.

(** A sequence of [addColorStop] calls on one gradient. *)
Fixpoint addColorStops (g : Gradient) (stops : list (Q * string)) : Res Gradient :=
  match stops with
  | [] => Ok g
  | (o, c) :: stops' =>
      match addColorStop g o c with
      | Throw e => Throw e
      | Ok g' => addColorStops g' stops'
      end
  end.

(** [drawBars(canvas, ctx, dataArray)] with the hook's [color] and
    [sensitivity]; [barWidth] is only used inside the loop, so the value
    [Q] gives to [width / 0] is never observed. *)
Definition drawBars (color : string) (sensitivity : Q) (canvas : Canvas)
    (dataArray : snapshot) : Res (list Cmd) :=
  let width := c_width canvas in
  let height := c_height canvas in
  let barCount := length dataArray in
  let barWidth := width / Q_of_nat barCount in
  match addColorStops (LinearGradient 0 height 0 0 [])
          [(0, color ++ "40"); (1#2, color ++ "80"); (1, color)]%string with
  | Throw e => Throw e
  | Ok gradient =>
      match run_loop (bar_cmds color sensitivity width height barWidth dataArray)
                     (seq 0 barCount) with
      | Throw e => Throw e
      | Ok cs => Ok (ClearRect 0 0 width height :: SetFillStyle gradient :: cs)
      end
  end.

(** The bars a list of canvas calls draws: [(x, y, w, h)] of each
    [roundRect]. *)
Fixpoint bars_of (cs : list Cmd) : list (Q * Q * Q * Q) :=
  match cs with
  | [] => []
  | RoundRect x y w h _ :: cs' => (x, y, w, h) :: bars_of cs'
  | _ :: cs' => bars_of cs'
  end.

(** The loop of [drawWaveform]: [x] starts at [0] and grows by
    [sliceWidth] each iteration. *)
Fixpoint wave_loop (sensitivity height centerY sliceWidth : Q) (d : snapshot)
    (i k : nat) (x : Q) : list Cmd :=
  match k with
  | O => []
  | S k' =>
      let v := (byte_at d i / 255) * sensitivity in
      let y := centerY + (v * height / 2) - (height / 4) in
      (if Nat.eqb i 0 then MoveTo x y else LineTo x y)
        :: wave_loop sensitivity height centerY sliceWidth d (S i) k' (x + sliceWidth)
  end.

(** [drawWaveform(canvas, ctx, dataArray)] *)
Definition drawWaveform (color : string) (sensitivity : Q) (canvas : Canvas)
    (dataArray : snapshot) : Res (list Cmd) :=
  let width := c_width canvas in
  let height := c_height canvas in
  let centerY := height / 2 in
  match addColorStops (LinearGradient 0 0 width 0 [])
          [(0, color ++ "60"); (1#2, color); (1, color ++ "60")]%string with
  | Throw e => Throw e
  | Ok gradient =>
      let sliceWidth := width / Q_of_nat (length dataArray) in
      Ok ([ClearRect 0 0 width height; SetStrokeStyle gradient; SetLineWidth 3;
           SetLineCap "round"; SetLineJoin "round"; BeginPath]
          ++ wave_loop sensitivity height centerY sliceWidth dataArray 0
                       (length dataArray) 0
          ++ [Stroke; SetShadowColor color; SetShadowBlur 10; Stroke; SetShadowBlur 0])
  end.

End Canvas2D.

(** The vertices of the path, and how many sub-paths it has. *)
Fixpoint path_vertices (cs : list Cmd) : list (Q * Q) :=
  match cs with
  | [] => []
  | MoveTo x y :: cs' | LineTo x y :: cs' => (x, y) :: path_vertices cs'
  | _ :: cs' => path_vertices cs'
  end.

Fixpoint moveto_count (cs : list Cmd) : nat :=
  match cs with
  | [] => O
  | MoveTo _ _ :: cs' => S (moveto_count cs')
  | _ :: cs' => moveto_count cs'
  end.

Close Scope Q_scope.

(* ------------------------------------------------------------------ *)
(** ** The animation loop of [Visualizer]

    [animate] is a [useCallback] closure: it sees the [isPlaying] of the
    render that created it, and [requestAnimationFrame(animate)] schedules
    that same closure. A pending frame records its handle and the
    [isPlaying] its closure captured. *)














(* ------------------------------------------------------------------ *)
(** ** The rest of [utils/audioContext.js] *)

(** [getAverageFrequency()] *)
Definition getAverageFrequency (bins : snapshot) : M jsnum :=
  fd <- getFrequencyData bins ;;
  match fd with
  | None => ret (Num 0)
  | Some d => ret (js_div (sum_range d 0 (length d)) (Z.of_nat (length d)))
  end.

Definition getMidFrequency_st (bins : snapshot) : M jsnum :=
  fd <- getFrequencyData bins ;; ret (getMidFrequency fd).

Definition getTrebleFrequency_st (bins : snapshot) : M jsnum :=
  fd <- getFrequencyData bins ;; ret (getTrebleFrequency fd).

(** [audioContext.state] as the platform reports it. *)
Definition state_string (st : CtxState) : string :=
  match st with
  | Suspended => "suspended"
  | Running => "running"
  | Closed => "closed"
  end.

(** [getAudioContextState()] *)
Definition getAudioContextState : M string :=
  m <- get_mod ;;
  match audioContext m with
  | None => ret "not-initialized"%string
  | Some c => st <- ctx_state c ;; ret (state_string st)
  end.

(** [resumeAudioContext()], the browser settling its [resume()] promise by
    [o]; the result is the value its own promise resolves to, [None] while
    it is still pending. *)
Definition resumeAudioContext (o : ResumeOutcome) : M (option bool) :=
  m <- get_mod ;;
  match audioContext m with
  | Some c =>
      st <- ctx_state c ;;
      if CtxState_eqb st Suspended
      then try_catch
             (ctx_resume c ;;;
              r <- resume_settles c o ;;
              match r with
              | Some _ => ret (Some true)
              | None => ret None
              end)
             (fun _ => ret (Some false))
      else ret (Some true)
  | None => ret (Some true)
  end.

(** One call of an exported function of [utils/audioContext.js]; a caller
    may catch what [connectAnalyzer] throws and go on. *)
Inductive ModCall :=
| CInitializeAudioContext (audioElement : option nat)
| CConnectAnalyzer (audioElement : nat)
| CGetFrequencyData (bins : snapshot)
| CGetTimeDomainData (wave : snapshot)
| CGetAverageFrequency (bins : snapshot)
| CGetBassFrequency (bins : snapshot)
| CGetMidFrequency (bins : snapshot)
| CGetTrebleFrequency (bins : snapshot)
| CDetectBeat (threshold : option Q) (bins : snapshot)
| CSetVolume (volume : Q)
| CGetAudioContextState
| CResumeAudioContext (o : ResumeOutcome)
| CCleanupAudioContext.

(** The module's state after the call. *)
Definition mod_call (c : ModCall) (s : St) : St :=
  match c with
  | CInitializeAudioContext e => snd (initializeAudioContext e s)
  | CConnectAnalyzer el => snd (connectAnalyzer el s)
  | CGetFrequencyData bins => snd (getFrequencyData bins s)
  | CGetTimeDomainData wave => snd (getTimeDomainData wave s)
  | CGetAverageFrequency bins => snd (getAverageFrequency bins s)
  | CGetBassFrequency bins => snd (getBassFrequency_st bins s)
  | CGetMidFrequency bins => snd (getMidFrequency_st bins s)
  | CGetTrebleFrequency bins => snd (getTrebleFrequency_st bins s)
  | CDetectBeat t bins => snd (detectBeat t bins s)
  | CSetVolume v => snd (setVolume v s)
  | CGetAudioContextState => snd (getAudioContextState s)
  | CResumeAudioContext o => snd (resumeAudioContext o s)
  | CCleanupAudioContext => snd (cleanupAudioContext s)
  end.

Definition run_calls (cs : list ModCall) (s : St) : St :=
  fold_left (fun s c => mod_call c s) cs s.

(** [dataArray] is [null] or holds [frequencyBinCount] bytes. *)
Definition DInv (s : St) : Prop :=
  forall da, dataArray (st_mod s) = Some da -> length da = frequencyBinCount.

Definition preserves {A} (m : M A) : Prop := forall s, DInv s -> DInv (snd (m s)).

(* ------------------------------------------------------------------ *)
(** ** Browser calls made by the components

    The components keep their Web Audio objects in refs of their own; the
    browser calls they make act on the world only, so they are run with
    the module's variables left aside. *)

Definition in_world {A} (m : M A) (w : World) : Res A * World :=
  let (r, s) := m (mkSt initial_mod w) in (r, st_world s).

(** The refs of [Visualizer] and its [isInitialized] state. *)
Record VRefs := mkVRefs {
  audioContextRef : option nat;
  analyserRef : option nat;
  sourceRef : option nat;
  dataArrayRef : option snapshot;
  isInitialized : bool
}.

Definition vrefs_initial : VRefs := mkVRefs None None None None false.

(** [initializeAudioContext] of [Visualizer], given [audioRef?.current]
    ([None]: no element). The refs are assigned one after the other, so
    those assigned before an exception keep their new values. *)
Definition vis_initializeAudioContext (audioEl : option nat) (r : VRefs)
    (w : World) : VRefs * World :=
  match audioEl with
  | None => (r, w)
  | Some el =>
      if isInitialized r then (r, w) else
      match in_world new_AudioContext w with
      | (Throw _, w) => (r, w)
      | (Ok c, w) =>
          let r := mkVRefs (Some c) (analyserRef r) (sourceRef r)
                           (dataArrayRef r) (isInitialized r) in
          match in_world (createAnalyser c) w with
          | (Throw _, w) => (r, w)
          | (Ok a, w) =>
              let r := mkVRefs (audioContextRef r) (Some a) (sourceRef r)
                               (dataArrayRef r) (isInitialized r) in
              match in_world (createMediaElementSource c el) w with
              | (Throw _, w) => (r, w)
              | (Ok n, w) =>
                  let r := mkVRefs (audioContextRef r) (analyserRef r) (Some n)
                                   (dataArrayRef r) (isInitialized r) in
                  match in_world (connect n a ;;; connect a (destination c)) w with
                  | (Throw _, w) => (r, w)
                  | (Ok _, w) =>
                      (mkVRefs (audioContextRef r) (analyserRef r) (sourceRef r)
                               (Some (repeat 0 frequencyBinCount)) true, w)
                  end
              end
          end
      end
  end.

(** The refs of [AudioPlayer] that hold Web Audio objects. *)
Record PRefs := mkPRefs {
  ap_audioContextRef : option nat;
  ap_analyzerRef : option nat;
  ap_sourceRef : option nat
}.

Definition prefs_initial : PRefs := mkPRefs None None None.

(** [initAudioContext()] of the mount effect of [AudioPlayer]. *)
Definition initAudioContext (r : PRefs) (w : World) : PRefs * World :=
  match ap_audioContextRef r with
  | Some _ => (r, w)
  | None =>
      match in_world new_AudioContext w with
      | (Throw _, w) => (r, w)
      | (Ok c, w) =>
          let r := mkPRefs (Some c) (ap_analyzerRef r) (ap_sourceRef r) in
          match in_world (createAnalyser c) w with
          | (Throw _, w) => (r, w)
          | (Ok a, w) => (mkPRefs (ap_audioContextRef r) (Some a) (ap_sourceRef r), w)
          end
      end
  end.

(** The effect of [AudioPlayer] that runs on mount and whenever
    [currentTrack] changes, for the element [el] of [audioRef]
    ([onAudioAnalyzer] is not passed by [App]). *)
Definition connect_effect (el : nat) (r : PRefs) (w : World) : PRefs * World :=
  match ap_audioContextRef r, ap_analyzerRef r with
  | Some c, Some a =>
      let w := match ap_sourceRef r with
               | Some n => snd (in_world (disconnect n) w)
               | None => w
               end in
      match in_world (createMediaElementSource c el) w with
      | (Throw _, w) => (r, w)
      | (Ok n, w) =>
          let r := mkPRefs (ap_audioContextRef r) (ap_analyzerRef r) (Some n) in
          (r, snd (in_world (connect n a ;;; connect a (destination c)) w))
      end
  | _, _ => (r, w)
  end.

(** Mounting [AudioPlayer]: the two effects run in order. *)
Definition player_mount (el : nat) (w : World) : PRefs * World :=
  let (r, w) := initAudioContext prefs_initial w in
  connect_effect el r w.

(** [k] changes of [currentTrack] after mounting. *)
Fixpoint track_changes (el : nat) (k : nat) (r : PRefs) (w : World) : PRefs * World :=
  match k with
  | O => (r, w)
  | S k' => let (r, w) := connect_effect el r w in track_changes el k' r w
  end.

(* ------------------------------------------------------------------ *)
(** ** [drawCircular] of [Visualizer]

    [Math.cos], [Math.sin] and [Math.PI] are parameters: what is proved
    about the drawing holds whatever their values. *)

Open Scope Q_scope.

Inductive CircCmd :=
| CCmd (c : Cmd)
| Arc (x y r a0 a1 : Q)
| SetStrokeColor (s : string)
| SetFillColor (s : string).

Section Circular.

Variables (cos sin : Q -> Q) (PI : Q).
Variable css_color_other : string -> bool.

(** One iteration of the loop of [drawCircular]. *)
Definition circ_bar (color : string) (sensitivity centerX centerY radius angleStep : Q)
    (d : snapshot) (i : nat) : Res (list CircCmd) :=
  let angle := Q_of_nat i * angleStep in
  let barHeight := (byte_at d i / 255) * 60 * sensitivity in
  let x1 := centerX + cos angle * radius in
  let y1 := centerY + sin angle * radius in
  let x2 := centerX + cos angle * (radius + barHeight) in
  let y2 := centerY + sin angle * (radius + barHeight) in
  match addColorStops css_color_other (LinearGradient x1 y1 x2 y2 [])
          [(0, color ++ "40"); (1, color)]%string with
  | Throw e => Throw e
  | Ok gradient =>
      Ok [CCmd BeginPath; CCmd (MoveTo x1 y1); CCmd (LineTo x2 y2);
          CCmd (SetStrokeStyle gradient); CCmd (SetLineWidth 3);
          CCmd (SetLineCap "round"); CCmd Stroke; CCmd (SetShadowColor color);
          CCmd (SetShadowBlur 5); CCmd Stroke; CCmd (SetShadowBlur 0)]
  end.

(** [drawCircular(canvas, ctx, dataArray)]. Assigning a string that does
    not parse as a color to [strokeStyle] or [fillStyle] is ignored by the
    canvas, without an exception; the assignments are recorded as made. *)
Definition drawCircular (color : string) (sensitivity : Q) (canvas : Canvas)
    (dataArray : snapshot) : Res (list CircCmd) :=
  let width := c_width canvas in
  let height := c_height canvas in
  let centerX := width / 2 in
  let centerY := height / 2 in
  let radius := math_min width height / 4 in
  let barCount := length dataArray in
  let angleStep := (2 * PI) / Q_of_nat barCount in
  match run_loop (circ_bar color sensitivity centerX centerY radius angleStep dataArray)
                 (seq 0 barCount) with
  | Throw e => Throw e
  | Ok bars =>
      Ok ([CCmd (ClearRect 0 0 width height); CCmd BeginPath;
           Arc centerX centerY (radius + 20) 0 (2 * PI);
           SetStrokeColor (color ++ "20"); CCmd (SetLineWidth 2); CCmd Stroke]
          ++ bars
          ++ [CCmd BeginPath; Arc centerX centerY 20 0 (2 * PI);
              SetFillColor (color ++ "60"); CCmd Fill])
  end.

End Circular.

(** The segments drawn: a [moveTo] directly followed by a [lineTo]. *)
Fixpoint circ_segments (cs : list CircCmd) : list ((Q * Q) * (Q * Q)) :=
  match cs with
  | CCmd (MoveTo x1 y1) :: CCmd (LineTo x2 y2) :: cs' =>
      ((x1, y1), (x2, y2)) :: circ_segments cs'
  | _ :: cs' => circ_segments cs'
  | [] => []
  end.

Close Scope Q_scope.

(* ------------------------------------------------------------------ *)
(** ** [components/AudioPlayer.jsx]

    The state of the component once a handler has run and React has
    applied its updates. [el_volume] and [el_currentTime] are the [volume]
    and [currentTime] of the [<audio>] element; it is rendered
    unconditionally, so [audioRef.current] is set whenever a handler
    runs. *)

(** The tracks of [config/audioSamples.js], by title. *)
Definition audioSamples : list string :=
  ["Ethereal Dreams"; "Neon Nights"; "Ocean Waves"; "Urban Pulse";
   "Cosmic Journey"]%string.

Definition audioSamples_length : Z := Z.of_nat (length audioSamples).

Record Player := mkPlayer {
  isPlaying : bool;
  currentTrack : Z;
  currentTime : Q;
  duration : jsnum;
  volume : Q;
  isMuted : bool;
  isShuffled : bool;
  repeatMode : string;
  el_volume : Q;
  el_currentTime : Q
}.

(** The initial state; a media element starts at volume [1]. *)
Definition player_initial : Player :=
  mkPlayer false 0 0 (Num 0) (7 # 10) false false "none" 1 0.

Definition set_isPlaying (b : bool) (p : Player) : Player :=
  mkPlayer b (currentTrack p) (currentTime p) (duration p) (volume p)
           (isMuted p) (isShuffled p) (repeatMode p) (el_volume p) (el_currentTime p).
Definition set_currentTrack (t : Z) (p : Player) : Player :=
  mkPlayer (isPlaying p) t (currentTime p) (duration p) (volume p)
           (isMuted p) (isShuffled p) (repeatMode p) (el_volume p) (el_currentTime p).
Definition set_currentTime (t : Q) (p : Player) : Player :=
  mkPlayer (isPlaying p) (currentTrack p) t (duration p) (volume p)
           (isMuted p) (isShuffled p) (repeatMode p) (el_volume p) (el_currentTime p).
Definition set_duration (d : jsnum) (p : Player) : Player :=
  mkPlayer (isPlaying p) (currentTrack p) (currentTime p) d (volume p)
           (isMuted p) (isShuffled p) (repeatMode p) (el_volume p) (el_currentTime p).
Definition set_volume (v : Q) (p : Player) : Player :=
  mkPlayer (isPlaying p) (currentTrack p) (currentTime p) (duration p) v
           (isMuted p) (isShuffled p) (repeatMode p) (el_volume p) (el_currentTime p).
Definition set_isMuted (b : bool) (p : Player) : Player :=
  mkPlayer (isPlaying p) (currentTrack p) (currentTime p) (duration p) (volume p)
           b (isShuffled p) (repeatMode p) (el_volume p) (el_currentTime p).
Definition set_repeatMode (m : string) (p : Player) : Player :=
  mkPlayer (isPlaying p) (currentTrack p) (currentTime p) (duration p) (volume p)
           (isMuted p) (isShuffled p) m (el_volume p) (el_currentTime p).
Definition set_el_volume (v : Q) (p : Player) : Player :=
  mkPlayer (isPlaying p) (currentTrack p) (currentTime p) (duration p) (volume p)
           (isMuted p) (isShuffled p) (repeatMode p) v (el_currentTime p).
Definition set_el_currentTime (t : Q) (p : Player) : Player :=
  mkPlayer (isPlaying p) (currentTrack p) (currentTime p) (duration p) (volume p)
           (isMuted p) (isShuffled p) (repeatMode p) (el_volume p) t.

Definition playPrevious (p : Player) : Player :=
  let newTrack := if 0 <? currentTrack p then currentTrack p - 1
                  else audioSamples_length - 1 in
  set_currentTime 0 (set_currentTrack newTrack p).

(** [playNext()]; [random] is the value [Math.random()] returns. *)
Definition playNext (random : Q) (p : Player) : Player :=
  let p := if isShuffled p
           then set_currentTrack (Qfloor (random * inject_Z audioSamples_length)) p
           else let newTrack := if currentTrack p <? audioSamples_length - 1
                                then currentTrack p + 1 else 0 in
                set_currentTrack newTrack p in
  set_currentTime 0 p.

(** [handleVolumeChange(e)] with [parseFloat(e.target.value)] =
    [newVolume]. *)
Definition handleVolumeChange (newVolume : Q) (p : Player) : Player :=
  set_isMuted (Qeq_bool newVolume 0)
              (set_el_volume newVolume (set_volume newVolume p)).

Definition toggleMute (p : Player) : Player :=
  if isMuted p then set_isMuted false (set_el_volume (volume p) p)
  else set_isMuted true (set_el_volume 0 p).

(** [handleLoadedMetadata()], given the element's [duration]. *)
Definition handleLoadedMetadata (d : jsnum) (p : Player) : Player :=
  set_el_volume (if isMuted p then 0%Q else volume p) (set_duration d p).

(** [handleEnded()]; the second component tells whether the 100 ms timer
    was started, and [ended_timeout] is what its callback does. *)
Definition handleEnded (random : Q) (p : Player) : Player * bool :=
  let p := set_isPlaying false p in
  if String.eqb (repeatMode p) "one" then
    (set_isPlaying true (set_el_currentTime 0 p), false)
  else if (String.eqb (repeatMode p) "all"
           || (currentTrack p <? audioSamples_length - 1))%bool
  then (playNext random p, true)
  else (p, false).

Definition ended_timeout (p : Player) : Player := set_isPlaying true p.

(** The player once [handleEnded] and the timer it started have run. *)
Definition after_ended (random : Q) (p : Player) : Player :=
  let (p', timer) := handleEnded random p in
  if timer then ended_timeout p' else p'.

Definition modes : list string := ["none"; "all"; "one"]%string.

(** [modes.indexOf(x)] *)
Fixpoint indexOf (l : list string) (x : string) : Z :=
  match l with
  | [] => -1
  | y :: l' =>
      if String.eqb y x then 0
      else let k := indexOf l' x in if k <? 0 then -1 else k + 1
  end.

(** [toggleRepeat()]; [%] on a non-negative left operand is [Z.rem], and
    the index is always in range, so the default of [nth] is never
    used. *)
Definition toggleRepeat (p : Player) : Player :=
  let currentIndex := indexOf modes (repeatMode p) in
  let nextMode := nth (Z.to_nat (Z.rem (currentIndex + 1) (Z.of_nat (length modes))))
                      modes ""%string in
  set_repeatMode nextMode p.

(** Number operations used by [formatTime]. *)
Definition js_falsy (x : jsnum) : bool :=
  match x with Num q => Qeq_bool q 0 | NaN => true | _ => false end.

Definition js_isNaN (x : jsnum) : bool :=
  match x with NaN => true | _ => false end.

(** [x / m] for a positive finite [m]. *)
Definition js_divq (x : jsnum) (m : Q) : jsnum :=
  match x with Num q => Num (q / m) | y => y end.

Definition Qtrunc (q : Q) : Z :=
  if Qle_bool 0 q then Qfloor q else - Qfloor (- q).

(** [x % m] for a positive finite [m]: the remainder of the truncated
    division; an infinite or [NaN] dividend gives [NaN]. *)
Definition js_modq (x : jsnum) (m : Q) : jsnum :=
  match x with
  | Num q => Num (q - m * inject_Z (Qtrunc (q / m)))
  | _ => NaN
  end.

(** [Math.floor(x)] *)
Definition js_floor (x : jsnum) : jsnum :=
  match x with Num q => Num (inject_Z (Qfloor q)) | y => y end.

Fixpoint uint_to_string (u : Decimal.uint) : string :=
  match u with
  | Decimal.Nil => ""
  | Decimal.D0 u => String "0" (uint_to_string u)
  | Decimal.D1 u => String "1" (uint_to_string u)
  | Decimal.D2 u => String "2" (uint_to_string u)
  | Decimal.D3 u => String "3" (uint_to_string u)
  | Decimal.D4 u => String "4" (uint_to_string u)
  | Decimal.D5 u => String "5" (uint_to_string u)
  | Decimal.D6 u => String "6" (uint_to_string u)
  | Decimal.D7 u => String "7" (uint_to_string u)
  | Decimal.D8 u => String "8" (uint_to_string u)
  | Decimal.D9 u => String "9" (uint_to_string u)
  end.

Definition int_to_string (z : Z) : string :=
  match Z.to_int z with
  | Decimal.Pos u => uint_to_string u
  | Decimal.Neg u => String "-" (uint_to_string u)
  end.

(** [x.toString()] for the integral values [Math.floor] returns. *)
Definition js_int_to_string (x : jsnum) : string :=
  match x with
  | Num q => int_to_string (Qfloor q)
  | NaN => "NaN"
  | PosInf => "Infinity"
  | NegInf => "-Infinity"
  end.

Fixpoint string_repeat (n : nat) (c : ascii) : string :=
  match n with O => "" | S n' => String c (string_repeat n' c) end.

(** [s.padStart(targetLength, pad)] with a one-character [pad]. *)
Definition padStart (targetLength : nat) (pad : ascii) (s : string) : string :=
  if Nat.leb targetLength (String.length s) then s
  else (string_repeat (targetLength - String.length s) pad ++ s)%string.

(** [formatTime(time)] of [AudioPlayer]. *)
Definition formatTime (time : jsnum) : string :=
  if (js_falsy time || js_isNaN time)%bool then "0:00" else
  let minutes := js_floor (js_divq time 60) in
  let seconds := js_floor (js_modq time 60) in
  (js_int_to_string minutes ++ ":" ++ padStart 2 "0" (js_int_to_string seconds))%string.

(** Reading a displayed time back: decimal digits, a colon, decimal
    digits. *)
Definition digit_of (c : ascii) : option (Decimal.uint -> Decimal.uint) :=
  if Ascii.eqb c "0" then Some Decimal.D0
  else if Ascii.eqb c "1" then Some Decimal.D1
  else if Ascii.eqb c "2" then Some Decimal.D2
  else if Ascii.eqb c "3" then Some Decimal.D3
  else if Ascii.eqb c "4" then Some Decimal.D4
  else if Ascii.eqb c "5" then Some Decimal.D5
  else if Ascii.eqb c "6" then Some Decimal.D6
  else if Ascii.eqb c "7" then Some Decimal.D7
  else if Ascii.eqb c "8" then Some Decimal.D8
  else if Ascii.eqb c "9" then Some Decimal.D9
  else None.

Fixpoint string_to_uint (s : string) : option Decimal.uint :=
  match s with
  | EmptyString => Some Decimal.Nil
  | String c s' =>
      match digit_of c, string_to_uint s' with
      | Some d, Some u => Some (d u)
      | _, _ => None
      end
  end.

Fixpoint split_colon (s : string) : option (string * string) :=
  match s with
  | EmptyString => None
  | String c s' =>
      if Ascii.eqb c ":" then Some (EmptyString, s')
      else match split_colon s' with
           | Some (a, b) => Some (String c a, b)
           | None => None
           end
  end.

Definition parse_time (s : string) : option Z :=
  match split_colon s with
  | Some (m, ss) =>
      match string_to_uint m, string_to_uint ss with
      | Some um, Some us => Some (Z.of_uint um * 60 + Z.of_uint us)
      | _, _ => None
      end
  | None => None
  end.

(* ------------------------------------------------------------------ *)
(** ** Lemmas on the band getters *)

Lemma nth_skipn_hd (d : snapshot) (s : nat) :
  nth s d 0 = hd 0 (skipn s d).
Proof.
  revert s; induction d as [|x d IH]; intros [|s]; simpl; auto.
Qed.

Lemma skipn_S_tl (d : snapshot) (s : nat) :
  skipn (S s) d = tl (skipn s d).
Proof.
  revert s; induction d as [|x d IH]; intros [|s]; simpl; auto.
  apply IH.
Qed.

Lemma fold_sum_slice (d : snapshot) (k s : nat) (a : Z) :
  fold_left (fun acc i => acc + nth i d 0) (seq s k) a
  = a + sum (firstn k (skipn s d)).
Proof.
  revert s a; induction k as [|k IH]; intros s a; simpl.
  - lia.
  - rewrite IH, skipn_S_tl, nth_skipn_hd.
    destruct (skipn s d) as [|x r]; simpl; rewrite ?firstn_nil; simpl; lia.
Qed.

Lemma sum_range_slice (d : snapshot) (s e : nat) :
  sum_range d s e = sum (slice d s e).
Proof. unfold sum_range, slice. rewrite fold_sum_slice. lia. Qed.

Lemma slice_length (d : snapshot) (s e : nat) :
  (e <= length d)%nat -> length (slice d s e) = (e - s)%nat.
Proof.
  intros H. unfold slice. rewrite length_firstn, length_skipn. lia.
Qed.

Lemma band_bounds (n : nat) :
  (bass_end n <= mid_end n <= n)%nat.
Proof.
  unfold bass_end, mid_end. split.
  - apply Nat.Div0.div_le_mono; lia.
  - apply Nat.Div0.div_le_upper_bound; lia.
Qed.

Lemma js_div_pos (a b : Z) :
  b <> 0 -> js_div a b = Num (inject_Z a / inject_Z b).
Proof. intros H. unfold js_div. now rewrite (proj2 (Z.eqb_neq b 0) H). Qed.

Lemma div8_facts (n : nat) :
  n = (8 * (n / 8) + n mod 8)%nat /\ (n mod 8 < 8)%nat /\
  (n * 5 = 8 * (n * 5 / 8) + (n * 5) mod 8)%nat /\ ((n * 5) mod 8 < 8)%nat.
Proof.
  repeat split; try apply Nat.div_mod_eq; apply Nat.mod_upper_bound; lia.
Qed.

Ltac div8 n := destruct (div8_facts n) as (? & ? & ? & ?).

Lemma divisors_pos_iff (n : nat) :
  (0 < bass_divisor n /\ 0 < mid_divisor n /\ 0 < treble_divisor n)%nat
  <-> (8 <= n)%nat.
Proof.
  unfold bass_divisor, mid_divisor, treble_divisor, bass_end, mid_start,
    mid_end, treble_start.
  div8 n. lia.
Qed.

Lemma bass_divisor_small (n : nat) :
  (n < 8)%nat -> bass_divisor n = 0%nat.
Proof. unfold bass_divisor, bass_end. intros H. div8 n. lia. Qed.

Lemma sum_range_empty (d : snapshot) (s e : nat) :
  (e <= s)%nat -> sum_range d s e = 0.
Proof.
  intros H. unfold sum_range. now replace (e - s)%nat with 0%nat by lia.
Qed.

Lemma js_div_zero : js_div 0 0 = NaN.
Proof. reflexivity. Qed.

Lemma band_value_mean (d : snapshot) (s e : nat) :
  (s <= e <= length d)%nat -> (0 < e - s)%nat ->
  js_div (sum_range d s e) (Z.of_nat (e - s)) = Num (mean (slice d s e)).
Proof.
  intros [Hse Hel] Hpos. rewrite js_div_pos by lia.
  unfold mean. rewrite sum_range_slice, slice_length by lia. reflexivity.
Qed.

Lemma band_value_empty (d : snapshot) (s e : nat) :
  (e <= s)%nat -> js_div (sum_range d s e) (Z.of_nat (e - s)) = NaN.
Proof.
  intros H. rewrite sum_range_empty by lia.
  replace (e - s)%nat with 0%nat by lia. reflexivity.
Qed.

(* ================================================================== *)
(** * Claims *)

(** C2: for every snapshot of [n >= 8] samples (the snapshots of the
    program have [frequencyBinCount] = 128 bins) the three getters iterate
    the contiguous ranges [0, n/8), [n/8, 5n/8) and [5n/8, n) (floors), none
    of them empty; every index below [n] lies in exactly one of them and no
    index beyond in any; and the value of each band is the arithmetic mean
    of the samples of its range. *)
Theorem bands_partition_and_means (d : snapshot) (H8 : (8 <= length d)%nat) :
  let n := length d in
  (bass_end n = mid_start n /\ mid_end n = treble_start n /\
   (0 < bass_end n)%nat /\ (bass_end n < mid_end n < n)%nat) /\
  (forall i, (i < n)%nat ->
     (Nat.b2n (in_bass n i) + Nat.b2n (in_mid n i) + Nat.b2n (in_treble n i))%nat
     = 1%nat) /\
  (forall i, (n <= i)%nat ->
     in_bass n i = false /\ in_mid n i = false /\ in_treble n i = false) /\
  getBassFrequency (Some d) = Num (mean (slice d 0 (bass_end n))) /\
  getMidFrequency (Some d) = Num (mean (slice d (mid_start n) (mid_end n))) /\
  getTrebleFrequency (Some d) = Num (mean (slice d (treble_start n) n)).
Proof.
  intros n.
  pose proof (band_bounds n) as [Hbm Hmn].
  destruct (proj2 (divisors_pos_iff n) H8) as (Hb & Hm & Ht).
  unfold getBassFrequency, getMidFrequency, getTrebleFrequency,
    bass_divisor, mid_divisor, treble_divisor, mid_start, treble_start in *.
  fold n.
  split; [|split; [|split; [|split; [|split]]]].
  - unfold bass_end, mid_end in *. repeat split; lia.
  - intros i Hi. unfold in_bass, in_mid, in_treble, in_range, mid_start,
      treble_start, bass_end, mid_end in *.
    destruct (Nat.ltb_spec i (n / 8)), (Nat.leb_spec (n / 8) i),
      (Nat.ltb_spec i (n * 5 / 8)), (Nat.leb_spec (n * 5 / 8) i),
      (Nat.ltb_spec i n); simpl; lia.
  - intros i Hi. unfold in_bass, in_mid, in_treble, in_range, mid_start,
      treble_start, bass_end, mid_end in *.
    destruct (Nat.ltb_spec i (n / 8)), (Nat.ltb_spec i (n * 5 / 8)),
      (Nat.ltb_spec i n); rewrite ?andb_false_r; repeat split; lia.
  - replace (bass_end n) with (bass_end n - 0)%nat at 2 by lia.
    apply band_value_mean; lia.
  - apply band_value_mean; unfold mid_end, bass_end in *; lia.
  - apply band_value_mean; unfold mid_end in *; lia.
Qed.

Lemma bands_partition_and_means_witness :
  let d : snapshot := map Z.of_nat (seq 0 16) in
  (8 <= length d)%nat /\
  getBassFrequency (Some d) = Num (mean (slice d 0 2)) /\
  getTrebleFrequency (Some d) = Num (mean (slice d 10 16)).
Proof.
  intros d.
  assert (H8 : (8 <= length d)%nat) by (vm_compute; lia).
  split; [exact H8|].
  destruct (bands_partition_and_means d H8) as (_ & _ & _ & Hb & _ & Ht).
  split; [exact Hb|exact Ht].
Defined.

(** C10: every divisor of [getBassFrequency], [getMidFrequency] and
    [getTrebleFrequency] is positive exactly when the snapshot has at least
    8 samples; the bass divisor is zero for every length from 1 to 7, the
    mid divisor is zero for length 1, and a one-sample snapshot makes
    [getBassFrequency] divide by zero (its result is [NaN]). *)
Theorem band_divisors_nonzero_iff_length_ge_8 :
  (forall n : nat,
     (0 < bass_divisor n /\ 0 < mid_divisor n /\ 0 < treble_divisor n)%nat
     <-> (8 <= n)%nat) /\
  (forall n : nat, (0 < n < 8)%nat -> bass_divisor n = 0%nat) /\
  mid_divisor 1 = 0%nat /\
  (exists d : snapshot,
     (0 < length d < 8)%nat /\ bass_divisor (length d) = 0%nat /\
     getBassFrequency (Some d) = NaN).
Proof.
  split; [exact divisors_pos_iff|].
  split; [intros n Hn; apply bass_divisor_small; lia|].
  split; [reflexivity|].
  exists [200]. split; [simpl; lia|]. split; reflexivity.
Qed.

Lemma lookup_put_same {A} (k : nat) (v : A) (l : list (nat * A)) :
  lookup k (put k v l) = Some v.
Proof. unfold put. simpl. now rewrite Nat.eqb_refl. Qed.

Lemma byte_copy_same_length (bins da : snapshot) :
  length da = length bins -> byte_copy bins da = bins.
Proof.
  intros H. unfold byte_copy. rewrite H, firstn_all.
  rewrite <- H, skipn_all. apply app_nil_r.
Qed.

Lemma js_gt_Num (q t : Q) : js_gt (Num q) t = true <-> (t < q)%Q.
Proof.
  simpl. rewrite negb_true_iff. split.
  - intros H. apply Qnot_le_lt. intros Hle.
    apply Qle_bool_iff in Hle. congruence.
  - intros H. destruct (Qle_bool q t) eqn:E; [|reflexivity].
    apply Qle_bool_iff in E. exfalso. apply (Qlt_not_le t q); assumption.
Qed.

Lemma js_gt_antitone (x : jsnum) (t t' : Q) :
  (t' < t)%Q -> js_gt x t = true -> js_gt x t' = true.
Proof.
  intros Hlt H. destruct x; try discriminate; try reflexivity.
  apply js_gt_Num in H. apply js_gt_Num. apply (Qlt_trans _ t); assumption.
Qed.

Lemma clampVolume_cases (v : Q) :
  ((v < 0)%Q -> clampVolume v = 0%Q) /\
  ((1 < v)%Q -> clampVolume v = 1%Q) /\
  ((0 <= v <= 1)%Q -> (clampVolume v == v)%Q).
Proof.
  unfold clampVolume, math_max, math_min.
  split; [|split].
  - intros H. destruct (Qle_bool 1 v) eqn:E1.
    + apply Qle_bool_iff in E1. exfalso.
      apply (Qlt_not_le v 0 H). apply (Qle_trans _ 1); [discriminate|exact E1].
    + destruct (Qle_bool v 0) eqn:E2; [reflexivity|].
      exfalso.
      assert (Qle_bool v 0 = true) by (apply Qle_bool_iff, Qlt_le_weak, H).
      congruence.
  - intros H. destruct (Qle_bool 1 v) eqn:E1.
    + reflexivity.
    + exfalso. rewrite <- not_true_iff_false in E1. apply E1.
      apply Qle_bool_iff, Qlt_le_weak, H.
  - intros [H0 H1]. destruct (Qle_bool 1 v) eqn:E1.
    + apply Qle_bool_iff in E1. simpl. apply Qle_antisym; assumption.
    + destruct (Qle_bool v 0) eqn:E2.
      * apply Qle_bool_iff in E2. apply Qle_antisym; assumption.
      * reflexivity.
Qed.

Lemma getFrequencyData_ready (s : St) (bins : snapshot) (a : nat) (da : snapshot) :
  analyser (st_mod s) = Some a -> dataArray (st_mod s) = Some da ->
  length da = length bins ->
  exists s', getFrequencyData bins s = (Ok (Some bins), s').
Proof.
  intros Ha Hd Hl.
  unfold getFrequencyData, bind, get_mod, try_catch, set_dataArray,
    modify_mod, ret; cbn.
  rewrite Ha, Hd. cbn. rewrite byte_copy_same_length by exact Hl.
  eexists; reflexivity.
Qed.

Lemma getBassFrequency_128 (bins : snapshot) :
  length bins = frequencyBinCount ->
  getBassFrequency (Some bins) = Num (mean (firstn 16 bins)).
Proof.
  intros Hl. unfold getBassFrequency, bass_divisor. cbv beta iota zeta. rewrite Hl.
  change (bass_end frequencyBinCount) with 16%nat.
  change (Z.of_nat 16) with (Z.of_nat (16 - 0)).
  rewrite band_value_mean by (try rewrite Hl; cbv; lia).
  reflexivity.
Qed.


(** C3: when the analyser or the data buffer is absent, [getFrequencyData]
    and [getTimeDomainData] return [null] normally (no exception) and
    change nothing. *)
Theorem sample_before_bind_not_ready (s : St) (bins wave : snapshot)
  (H : analyser (st_mod s) = None \/ dataArray (st_mod s) = None) :
  getFrequencyData bins s = (Ok None, s) /\
  getTimeDomainData wave s = (Ok None, s).
Proof.
  unfold getFrequencyData, getTimeDomainData, bind, get_mod; cbn.
  destruct H as [H|H]; rewrite H; [split; reflexivity|].
  destruct (analyser (st_mod s)); split; reflexivity.
Qed.

Lemma sample_before_bind_not_ready_witness :
  (analyser (st_mod initial_state) = None \/ dataArray (st_mod initial_state) = None) /\
  getFrequencyData [1; 2; 3] initial_state = (Ok None, initial_state) /\
  getTimeDomainData [128] initial_state = (Ok None, initial_state).
Proof.
  split; [left; reflexivity|].
  apply (sample_before_bind_not_ready initial_state [1; 2; 3] [128]).
  left; reflexivity.
Defined.

(** C5: with a gain node in place, [setVolume(level)] completes normally,
    schedules exactly one [setValueAtTime] event on that gain, at the
    context's current time (no ramp), whose value is [Math.max(0,
    Math.min(1, level))]: [0] below [0], [1] above [1], the level itself
    within [[0, 1]]. The module's variables are unchanged. *)
Theorem setVolume_clamps_and_applies (s : St) (v : Q) (g c : nat)
  (Hg : gainNode (st_mod s) = Some g) (Hc : audioContext (st_mod s) = Some c) :
  let s' := snd (setVolume v s) in
  fst (setVolume v s) = Ok tt /\
  st_mod s' = st_mod s /\
  gain_events g (st_world s')
    = (clampVolume v, w_time (st_world s)) :: gain_events g (st_world s) /\
  ((v < 0)%Q -> clampVolume v = 0%Q) /\
  ((1 < v)%Q -> clampVolume v = 1%Q) /\
  ((0 <= v <= 1)%Q -> (clampVolume v == v)%Q).
Proof.
  unfold setVolume, bind, get_mod, try_catch, get_world, setValueAtTime,
    modify_world; cbn.
  rewrite Hg, Hc. cbn.
  split; [reflexivity|]. split; [reflexivity|].
  split; [unfold gain_events at 1; cbn; now rewrite Nat.eqb_refl|].
  apply clampVolume_cases.
Qed.

Lemma setVolume_clamps_and_applies_witness :
  let s := snd (initializeAudioContext (Some 7%nat) initial_state) in
  gainNode (st_mod s) = Some 2%nat /\ audioContext (st_mod s) = Some 0%nat /\
  fst (setVolume (3 # 2) s) = Ok tt /\
  gain_events 2 (st_world (snd (setVolume (3 # 2) s))) = [(1%Q, 0%Q)].
Proof.
  intros s.
  assert (Hg : gainNode (st_mod s) = Some 2%nat) by reflexivity.
  assert (Hc : audioContext (st_mod s) = Some 0%nat) by reflexivity.
  destruct (setVolume_clamps_and_applies s (3 # 2) 2 0 Hg Hc)
    as (Hok & _ & Hev & _).
  split; [exact Hg|]. split; [exact Hc|]. split; [exact Hok|].
  rewrite Hev. reflexivity.
Defined.

(** C6: once the graph is ready (analyser and a buffer of
    [frequencyBinCount] bytes), for every 128-bin snapshot [bins] the
    analyser delivers, [detectBeat(t)] returns [true] exactly when the mean
    of the bass band (bins 0 to 15) is strictly above [t]; the default
    threshold is [200]; and a [true] at [t] stays [true] at every [t' < t]. *)
Theorem detectBeat_bass_above_threshold (s : St) (bins : snapshot) (t : Q)
  (a : nat) (da : snapshot)
  (Ha : analyser (st_mod s) = Some a) (Hd : dataArray (st_mod s) = Some da)
  (Hlen : length da = frequencyBinCount)
  (Hbins : length bins = frequencyBinCount) :
  (fst (detectBeat (Some t) bins s) = Ok true <-> (t < mean (firstn 16 bins))%Q) /\
  detectBeat None bins s = detectBeat (Some 200%Q) bins s /\
  (forall t' : Q, (t' < t)%Q ->
     fst (detectBeat (Some t) bins s) = Ok true ->
     fst (detectBeat (Some t') bins s) = Ok true).
Proof.
  assert (Hval : forall t0, fst (detectBeat (Some t0) bins s)
                            = Ok (js_gt (Num (mean (firstn 16 bins))) t0)).
  { intros t0. unfold detectBeat, getBassFrequency_st, bind. cbv beta zeta.
    destruct (getFrequencyData_ready s bins a da Ha Hd ltac:(congruence))
      as [s' E].
    rewrite E. cbn -[getBassFrequency]. rewrite getBassFrequency_128 by exact Hbins.
    reflexivity. }
  split; [|split].
  - rewrite Hval. rewrite <- js_gt_Num. split; congruence.
  - reflexivity.
  - intros t' Hlt H. rewrite Hval in *. injection H as H.
    f_equal. apply (js_gt_antitone _ t); assumption.
Qed.

Lemma detectBeat_bass_above_threshold_witness :
  let s := snd (initializeAudioContext (Some 7%nat) initial_state) in
  fst (detectBeat (Some 200%Q) (repeat 250 128) s) = Ok true /\
  fst (detectBeat (Some 250%Q) (repeat 250 128) s) <> Ok true.
Proof.
  intros s.
  assert (Ha : analyser (st_mod s) = Some 1%nat) by reflexivity.
  assert (Hd : dataArray (st_mod s) = Some (repeat 0 frequencyBinCount))
    by reflexivity.
  assert (Hl1 : length (repeat 0 frequencyBinCount) = frequencyBinCount)
    by reflexivity.
  assert (Hl2 : length (repeat 250 128) = frequencyBinCount) by reflexivity.
  destruct (detectBeat_bass_above_threshold s (repeat 250 128) 200 1
              (repeat 0 frequencyBinCount) Ha Hd Hl1 Hl2) as [H200 _].
  destruct (detectBeat_bass_above_threshold s (repeat 250 128) 250 1
              (repeat 0 frequencyBinCount) Ha Hd Hl1 Hl2) as [H250 _].
  split.
  - apply H200. vm_compute. reflexivity.
  - intros H. apply H250 in H. vm_compute in H. discriminate H.
Defined.

Lemma CtxState_eqb_refl (x : CtxState) : CtxState_eqb x x = true.
Proof. now destruct x. Qed.

(** C4: [cleanupAudioContext] completes normally on every state; after it
    the source, analyser, gain node and data buffer are [null], the context
    the module held is closed (and the module holds either no context or a
    closed one); a second call completes normally and changes nothing; on a
    never-constructed graph it changes nothing. *)
Theorem cleanup_idempotent_and_total :
  (forall s : St,
     let s1 := snd (cleanupAudioContext s) in
     fst (cleanupAudioContext s) = Ok tt /\
     cleanupAudioContext s1 = (Ok tt, s1) /\
     source (st_mod s1) = None /\ analyser (st_mod s1) = None /\
     gainNode (st_mod s1) = None /\ dataArray (st_mod s1) = None /\
     match audioContext (st_mod s) with
     | Some c => lookup c (w_ctx (st_world s1)) = Some Closed
     | None => True
     end /\
     match audioContext (st_mod s1) with
     | Some c => lookup c (w_ctx (st_world s1)) = Some Closed
     | None => True
     end) /\
  (forall w : World,
     cleanupAudioContext (mkSt initial_mod w) = (Ok tt, mkSt initial_mod w)).
Proof.
  split.
  - intros [[ac an da so gn] w].
    destruct so, an, gn, ac as [c|];
      try (destruct (lookup c (w_ctx w)) as [[]|] eqn:E);
      cbv [cleanupAudioContext try_catch bind get_mod get_world modify_mod
           modify_world set_source set_analyser set_gainNode set_audioContext
           set_dataArray disconnect ctx_state ctx_close set_ctx_state ret];
      cbn; rewrite ?E; cbn; rewrite ?Nat.eqb_refl; cbn; rewrite ?E;
      repeat split; try reflexivity.
  - intros w. reflexivity.
Qed.

Lemma filter_key_none (el : nat) (P : nat * nat -> bool) (l : list (nat * nat)) :
  length (filter (is_key el) l) = 0%nat ->
  length (filter (fun p => is_key el p && P p) l) = 0%nat.
Proof.
  induction l as [|[k v] l IH]; simpl; auto.
  change (is_key el (k, v)) with (Nat.eqb k el).
  destruct (Nat.eqb k el); simpl.
  - discriminate.
  - exact IH.
Qed.

Lemma filter_key_single (el n : nat) (P : nat * nat -> bool) (l : list (nat * nat)) :
  length (filter (is_key el) l) = 1%nat -> lookup el l = Some n ->
  length (filter (fun p => is_key el p && P p) l) = if P (el, n) then 1%nat else 0%nat.
Proof.
  induction l as [|[k v] l IH]; simpl; [discriminate|].
  change (is_key el (k, v)) with (Nat.eqb k el).
  destruct (Nat.eqb_spec k el) as [->|Hne].
  - rewrite Nat.eqb_refl. intros Hc Hl. injection Hl as <-.
    simpl in Hc. injection Hc as Hc.
    pose proof (filter_key_none el P l Hc) as H0.
    destruct (P (el, v)); simpl; rewrite H0; reflexivity.
  - rewrite (proj2 (Nat.eqb_neq el k) (not_eq_sym Hne)). simpl. exact IH.
Qed.

Lemma Bound_signal_paths (el : nat) (s : St) :
  Bound el s -> signal_paths el s = 1%nat.
Proof.
  intros (c & a & g & n & Hc & Ha & Hg & Hs & Hcount & Hl & Hna & Hag & Hgd).
  unfold signal_paths. rewrite Hc, Ha, Hg.
  rewrite (filter_key_single el n
             (fun p => has_edge (snd p) a (st_world s) && has_edge a g (st_world s)
                       && has_edge g (destination c) (st_world s))
             (w_tapped (st_world s)) Hcount Hl).
  - simpl. now rewrite Hna, Hag, Hgd.
Qed.

Ltac run_module :=
  cbv [initializeAudioContext connectAnalyzer get_or_create_context
       get_or_create_analyser get_or_create_gain createMediaElementSource
       ctx_state ctx_resume set_ctx_state try_catch bind get_mod get_world
       modify_mod modify_world set_source set_analyser set_gainNode
       set_audioContext set_dataArray ret throw]; cbn.

Lemma connectAnalyzer_bound (el : nat) (s : St) :
  Bound el s -> connectAnalyzer el s = (Throw "InvalidStateError", s).
Proof.
  intros (c & a & g & n & Hc & Ha & Hg & Hs & Hcount & Hl & Hna & Hag & Hgd).
  run_module. rewrite Hc. cbn. rewrite Ha. cbn. rewrite Hg. cbn.
  rewrite Hl. reflexivity.
Qed.

Lemma initialize_bound (el : nat) (e : option nat) (s : St) :
  Bound el s -> Bound el (snd (initializeAudioContext e s)).
Proof.
  intros (c & a & g & n & Hc & Ha & Hg & Hs & Hcount & Hl & Hna & Hag & Hgd).
  destruct s as [[ac an da so gn] [nx tm cx tp ed gs]]; cbn in *; subst.
  run_module.
  destruct (lookup c cx) as [[]|] eqn:E; cbn; rewrite ?E; cbn;
    exists c, a, g, n; cbn; repeat split; assumption.
Qed.

Lemma bind_op_bound (el : nat) (o : BindOp) (s : St) :
  Bound el s -> Bound el (bind_op el o s).
Proof.
  intros H. destruct o; simpl.
  - now apply initialize_bound.
  - now apply initialize_bound.
  - now rewrite connectAnalyzer_bound.
Qed.

Lemma run_binds_bound (el : nat) (ops : list BindOp) (s : St) :
  Bound el s -> Bound el (run_binds el ops s).
Proof.
  unfold run_binds. revert s.
  induction ops as [|o ops IH]; intros s H; simpl; [exact H|].
  apply IH, bind_op_bound, H.
Qed.

(** C1: once the module's graph taps element [el], any sequence of further
    [initializeAudioContext] and [connectAnalyzer] calls for [el] keeps
    exactly one source node for [el] and exactly one signal path from it
    through the analyser and the gain to the destination: a repeated
    [connectAnalyzer(el)] raises [InvalidStateError] (the platform refuses
    a second source node for the element) and leaves the graph as it was,
    and [initializeAudioContext] does not create a source while one is
    held. *)
Theorem repeated_bind_single_tap (el : nat) (ops : list BindOp) (s : St)
  (H : Bound el s) :
  let s' := run_binds el ops s in
  Bound el s' /\ signal_paths el s' = 1%nat /\
  tapped_count el (st_world s') = 1%nat /\
  connectAnalyzer el s' = (Throw "InvalidStateError", s').
Proof.
  intros s'.
  pose proof (run_binds_bound el ops s H) as HB.
  split; [exact HB|]. split; [now apply Bound_signal_paths|].
  split; [|now apply connectAnalyzer_bound].
  destruct HB as (c & a & g & n & _ & _ & _ & _ & Hcount & _). exact Hcount.
Qed.

Lemma repeated_bind_single_tap_witness :
  let s := snd (initializeAudioContext (Some 5%nat) initial_state) in
  let s' := run_binds 5 [OConnect; OInit; OConnect; OInitNoElement] s in
  Bound 5 s /\ signal_paths 5 s' = 1%nat /\ signal_paths 5 s = 1%nat.
Proof.
  intros s s'.
  assert (HB : Bound 5 s).
  { exists 0%nat, 1%nat, 2%nat, 3%nat. vm_compute. repeat split. }
  split; [exact HB|]. split.
  - exact (proj1 (proj2 (repeated_bind_single_tap 5
                           [OConnect; OInit; OConnect; OInitNoElement] s HB))).
  - exact (proj1 (proj2 (repeated_bind_single_tap 5 [] s HB))).
Defined.

Lemma addColorStops_ok (other : string -> bool) (x0 y0 x1 y1 : Q)
    (acc stops : list (Q * string)) :
  Forall (fun st => Qle_bool 0 (fst st) && Qle_bool (fst st) 1
                    && css_color other (snd st) = true)%Q stops ->
  addColorStops other (LinearGradient x0 y0 x1 y1 acc) stops
  = Ok (LinearGradient x0 y0 x1 y1 (acc ++ stops)).
Proof.
  revert acc. induction stops as [|[o c] stops IH]; intros acc HF.
  - simpl. now rewrite app_nil_r.
  - inversion HF as [|? ? Hst HF']; subst. cbn [fst snd] in Hst.
    apply andb_prop in Hst as [Ho Hc]. simpl.
    unfold addColorStop. rewrite Ho, Hc. simpl.
    rewrite IH by exact HF'. now rewrite <- app_assoc.
Qed.

Lemma addColorStops_throws (other : string -> bool) (g : Gradient) (o : Q) (c : string)
    (stops : list (Q * string)) :
  Qle_bool 0 o && Qle_bool o 1 = true -> css_color other c = false ->
  addColorStops other g ((o, c) :: stops) = Throw "SyntaxError".
Proof.
  intros Ho Hc. simpl. unfold addColorStop. rewrite Ho, Hc. reflexivity.
Qed.

Lemma run_loop_ok {A} (body : nat -> Res (list A)) (f : nat -> list A) (l : list nat) :
  (forall i, body i = Ok (f i)) -> run_loop body l = Ok (flat_map f l).
Proof.
  intros H. induction l as [|i l IH]; simpl; [reflexivity|].
  now rewrite H, IH.
Qed.

Lemma bars_of_app (xs ys : list Cmd) : bars_of (xs ++ ys) = bars_of xs ++ bars_of ys.
Proof.
  induction xs as [|c xs IH]; simpl; [reflexivity|].
  destruct c; simpl; rewrite ?IH; reflexivity.
Qed.

Lemma bars_of_flat_map (f : nat -> list Cmd) (g : nat -> Q * Q * Q * Q) (l : list nat) :
  (forall i, bars_of (f i) = [g i]) -> bars_of (flat_map f l) = map g l.
Proof.
  intros H. induction l as [|i l IH]; simpl; [reflexivity|].
  now rewrite bars_of_app, H, IH.
Qed.

Lemma byte_at_const (d : snapshot) (k : Z) (i : nat) :
  Forall (fun x => x = k) d -> (i < length d)%nat -> byte_at d i = inject_Z k.
Proof.
  intros HF Hi. unfold byte_at. f_equal.
  rewrite Forall_forall in HF. apply HF, nth_In, Hi.
Qed.

Open Scope Q_scope.

(** C7: for every snapshot, canvas and sensitivity, and a [color] prop
    whose three gradient stops [color + '40'], [color + '80'] and [color]
    parse as CSS colors (as for the default ['#3b82f6'], the one [App]
    uses), [drawBars] completes without exception; its first call clears
    the whole surface; it draws one bar per bin, bar [i] at
    [x = i * (width / n) + 1] with width [width / n - 2] and height
    [(sample_i / 255) * height * sensitivity], standing on the bottom edge.
    All-zero samples give zero-height bars everywhere; all-255 samples at
    sensitivity 1 give bars of exactly the surface height. *)
Theorem drawBars_layout (other : string -> bool) (color : string) (sensitivity : Q)
  (canvas : Canvas) (d : snapshot)
  (H40 : css_color other (color ++ "40") = true)
  (H80 : css_color other (color ++ "80") = true)
  (Hc : css_color other color = true) :
  let n := length d in
  let width := c_width canvas in
  let height := c_height canvas in
  let barWidth := width / Q_of_nat n in
  exists cs,
    drawBars other color sensitivity canvas d = Ok cs /\
    hd_error cs = Some (ClearRect 0 0 width height) /\
    bars_of cs =
      map (fun i => let h := (byte_at d i / 255) * height * sensitivity in
                    (Q_of_nat i * barWidth + 1, height - h, barWidth - 2, h))
          (seq 0 n) /\
    (forall x y w h, In (x, y, w, h) (bars_of cs) ->
       (Forall (fun b => b = 0%Z) d -> h == 0) /\
       (Forall (fun b => b = 255%Z) d -> sensitivity == 1 -> h == height)).
Proof.
  intros n width height barWidth.
  set (g := fun i => let h := (byte_at d i / 255) * height * sensitivity in
                     (Q_of_nat i * barWidth + 1, height - h, barWidth - 2, h)).
  set (f := fun i =>
         [BeginPath;
          RoundRect (Q_of_nat i * barWidth + 1)
                    (height - (byte_at d i / 255) * height * sensitivity)
                    (barWidth - 2) ((byte_at d i / 255) * height * sensitivity)
                    [2; 2; 0; 0];
          Fill; SetShadowColor color; SetShadowBlur 10; Fill; SetShadowBlur 0]).
  assert (Hloop : run_loop (bar_cmds color sensitivity width height barWidth d)
                           (seq 0 n) = Ok (flat_map f (seq 0 n))).
  { apply run_loop_ok. intros i. reflexivity. }
  assert (Hbars : bars_of (flat_map f (seq 0 n)) = map g (seq 0 n)).
  { apply bars_of_flat_map. intros i. reflexivity. }
  assert (Hstops : addColorStops other (LinearGradient 0 height 0 0 [])
                     [(0, color ++ "40"); (1 # 2, color ++ "80"); (1, color)]%string
                   = Ok (LinearGradient 0 height 0 0
                           [(0, color ++ "40"); (1 # 2, color ++ "80"); (1, color)]%string)).
  { apply addColorStops_ok. repeat constructor; cbn [fst snd].
    - now rewrite H40.
    - now rewrite H80.
    - now rewrite Hc. }
  exists (ClearRect 0 0 width height :: SetFillStyle
            (LinearGradient 0 height 0 0
               [(0, color ++ "40"); (1 # 2, color ++ "80"); (1, color)]%string)
            :: flat_map f (seq 0 n)).
  split; [unfold drawBars; fold n width height barWidth; now rewrite Hstops, Hloop|].
  split; [reflexivity|].
  simpl bars_of. rewrite Hbars. split; [reflexivity|].
  intros x y w h Hin. apply in_map_iff in Hin as (i & Hgi & Hi).
  apply in_seq in Hi. unfold g in Hgi. injection Hgi as _ _ _ Hh. subst h.
  split.
  - intros HF. rewrite (byte_at_const d 0 i HF) by lia. field.
  - intros HF Hs. rewrite (byte_at_const d 255 i HF) by lia. rewrite Hs. field.
Qed.

Lemma drawBars_layout_witness :
  let other := fun _ : string => false in
  let d : snapshot := [0; 0; 0; 0]%Z in
  css_color other ("#3b82f6" ++ "40") = true /\
  css_color other ("#3b82f6" ++ "80") = true /\
  css_color other "#3b82f6" = true /\
  exists cs, drawBars other "#3b82f6" 1 (mkCanvas 640 480) d = Ok cs /\
             length (bars_of cs) = 4%nat.
Proof.
  intros other d.
  assert (H40 : css_color other ("#3b82f6" ++ "40") = true) by reflexivity.
  assert (H80 : css_color other ("#3b82f6" ++ "80") = true) by reflexivity.
  assert (Hc : css_color other "#3b82f6" = true) by reflexivity.
  split; [exact H40|]. split; [exact H80|]. split; [exact Hc|].
  destruct (drawBars_layout other "#3b82f6" 1 (mkCanvas 640 480) d H40 H80 Hc)
    as (cs & Hd & _ & Hb & _).
  exists cs. split; [exact Hd|]. rewrite Hb. reflexivity.
Defined.

Close Scope Q_scope.

Lemma path_vertices_app (xs ys : list Cmd) :
  path_vertices (xs ++ ys) = path_vertices xs ++ path_vertices ys.
Proof.
  induction xs as [|c xs IH]; simpl; [reflexivity|].
  destruct c; simpl; rewrite ?IH; reflexivity.
Qed.

Lemma moveto_count_app (xs ys : list Cmd) :
  moveto_count (xs ++ ys) = (moveto_count xs + moveto_count ys)%nat.
Proof.
  induction xs as [|c xs IH]; simpl; [reflexivity|].
  destruct c; simpl; rewrite ?IH; reflexivity.
Qed.

Lemma Q_of_nat_S (j : nat) : (Q_of_nat (S j) == Q_of_nat j + 1)%Q.
Proof.
  unfold Q_of_nat. rewrite Nat2Z.inj_succ, <- Z.add_1_r, inject_Z_plus.
  reflexivity.
Qed.

Lemma wave_loop_moveto (sens h cY sw : Q) (d : snapshot) (k : nat) :
  forall i x, moveto_count (wave_loop sens h cY sw d i k x)
              = (if Nat.eqb i 0 then (if Nat.eqb k 0 then 0 else 1) else 0)%nat.
Proof.
  induction k as [|k IH]; intros i x; simpl.
  - now destruct (Nat.eqb i 0).
  - rewrite IH. destruct (Nat.eqb i 0) eqn:E; simpl; reflexivity.
Qed.

Lemma wave_loop_vertices (sens h cY sw : Q) (d : snapshot) (k : nat) :
  forall i x,
    length (path_vertices (wave_loop sens h cY sw d i k x)) = k /\
    forall j, (j < k)%nat ->
      exists xj,
        nth_error (path_vertices (wave_loop sens h cY sw d i k x)) j
          = Some (xj, (cY + ((byte_at d (i + j) / 255) * sens * h / 2) - h / 4)%Q) /\
        (xj == x + Q_of_nat j * sw)%Q.
Proof.
  induction k as [|k IH]; intros i x.
  - split; [reflexivity|]. intros j Hj. lia.
  - destruct (IH (S i) (x + sw)%Q) as [Hlen Hnth].
    assert (Hhd : path_vertices (wave_loop sens h cY sw d i (S k) x)
                  = (x, (cY + ((byte_at d i / 255) * sens * h / 2) - h / 4)%Q)
                    :: path_vertices (wave_loop sens h cY sw d (S i) k (x + sw))).
    { simpl. destruct (Nat.eqb i 0); reflexivity. }
    rewrite Hhd. split; [simpl; now rewrite Hlen|].
    intros [|j] Hj.
    + exists x. rewrite Nat.add_0_r. split; [reflexivity|].
      unfold Q_of_nat. simpl. ring.
    + destruct (Hnth j ltac:(lia)) as (xj & Hxj & Heq).
      exists xj. simpl. rewrite Hxj. split.
      * now rewrite Nat.add_succ_r.
      * rewrite Heq, Q_of_nat_S. ring.
Qed.

(** C9: for every nonempty snapshot (the program's have 128 bins) and a
    [color] prop whose gradient stops [color + '60'] and [color] parse as
    CSS colors (as for the default ['#3b82f6']), [drawWaveform] completes
    without exception, clears the surface and builds one path (a single
    [moveTo], then [lineTo]s) with exactly one vertex per bin: vertex [i] at
    [x = i * (width / n)], so the [n] slices of width [width / n] that the
    vertices start run from [x = 0] across the full width, and at
    [y = height / 2 + (v_i - 1/2) * (height / 2)] with
    [v_i = (sample_i / 255) * sensitivity], i.e. [v = 0 .. 1] maps onto
    [height / 4 .. 3 height / 4], centred on the middle of the surface. *)
Theorem drawWaveform_vertices (other : string -> bool) (color : string)
  (sensitivity : Q) (canvas : Canvas) (d : snapshot)
  (Hn : (0 < length d)%nat)
  (H60 : css_color other (color ++ "60") = true)
  (Hc : css_color other color = true) :
  let n := length d in
  let width := c_width canvas in
  let height := c_height canvas in
  exists cs,
    drawWaveform other color sensitivity canvas d = Ok cs /\
    hd_error cs = Some (ClearRect 0 0 width height) /\
    moveto_count cs = 1%nat /\
    length (path_vertices cs) = n /\
    (forall i, (i < n)%nat ->
       exists x y,
         nth_error (path_vertices cs) i = Some (x, y) /\
         (x == Q_of_nat i * (width / Q_of_nat n))%Q /\
         (y == height / 2
               + ((byte_at d i / 255) * sensitivity - (1 # 2)) * (height / 2))%Q) /\
    (forall x y, nth_error (path_vertices cs) (n - 1) = Some (x, y) ->
       (x + width / Q_of_nat n == width)%Q).
Proof.
  intros n width height.
  set (gradient := LinearGradient 0 0 width 0
                     [(0%Q, color ++ "60"); ((1 # 2)%Q, color); (1%Q, color ++ "60")]%string).
  set (cs := [ClearRect 0 0 width height; SetStrokeStyle gradient; SetLineWidth 3;
              SetLineCap "round"; SetLineJoin "round"; BeginPath]
             ++ wave_loop sensitivity height (height / 2) (width / Q_of_nat n) d 0 n 0
             ++ [Stroke; SetShadowColor color; SetShadowBlur 10; Stroke; SetShadowBlur 0]).
  assert (Hstops : addColorStops other (LinearGradient 0 0 width 0 [])
                     [(0%Q, color ++ "60"); ((1 # 2)%Q, color); (1%Q, color ++ "60")]%string
                   = Ok gradient).
  { apply addColorStops_ok. repeat constructor; cbn [fst snd].
    - now rewrite H60.
    - now rewrite Hc.
    - now rewrite H60. }
  destruct (wave_loop_vertices sensitivity height (height / 2)
              (width / Q_of_nat n) d n 0 0) as [Hlen Hnth].
  assert (Hvs : path_vertices cs = path_vertices (wave_loop sensitivity height (height / 2)
                                     (width / Q_of_nat n) d 0 n 0)).
  { unfold cs. rewrite !path_vertices_app. simpl. now rewrite app_nil_r. }
  assert (Hx : forall i, (i < n)%nat ->
     exists x y,
       nth_error (path_vertices cs) i = Some (x, y) /\
       (x == Q_of_nat i * (width / Q_of_nat n))%Q /\
       (y == height / 2
             + ((byte_at d i / 255) * sensitivity - (1 # 2)) * (height / 2))%Q).
  { intros i Hi. destruct (Hnth i Hi) as (x & Hxi & Heq).
    exists x. eexists. rewrite Hvs. split; [exact Hxi|]. split.
    + rewrite Heq. ring.
    + rewrite Nat.add_0_l. field. }
  exists cs. split; [unfold drawWaveform; fold width height n; now rewrite Hstops|].
  split; [reflexivity|]. split.
  - unfold cs. rewrite !moveto_count_app.
    assert (Hn0 : Nat.eqb n 0 = false) by (apply Nat.eqb_neq; unfold n; lia).
    rewrite wave_loop_moveto, Hn0. reflexivity.
  - split; [now rewrite Hvs|]. split; [exact Hx|].
    intros x y Hl.
    destruct (Hx (n - 1)%nat ltac:(unfold n in *; lia)) as (x' & y' & Hl' & Hx' & _).
    rewrite Hl in Hl'. injection Hl' as -> _. rewrite Hx'.
    assert (Hq : ~ (Q_of_nat n == 0)%Q).
    { unfold Q_of_nat. change 0%Q with (inject_Z 0). rewrite inject_Z_injective.
      unfold n in *; lia. }
    assert (Hs : (Q_of_nat (n - 1) + 1 == Q_of_nat n)%Q).
    { replace n with (S (n - 1)) at 2 by (unfold n in *; lia).
      now rewrite Q_of_nat_S. }
    rewrite <- Hs in Hq |- *. field. exact Hq.
Qed.

Lemma drawWaveform_vertices_witness :
  let other := fun _ : string => false in
  let d : snapshot := repeat 128%Z 128 in
  (0 < length d)%nat /\
  css_color other ("#3b82f6" ++ "60") = true /\
  css_color other "#3b82f6" = true /\
  exists cs, drawWaveform other "#3b82f6" 1 (mkCanvas 640 480) d = Ok cs /\
             moveto_count cs = 1%nat /\ length (path_vertices cs) = 128%nat.
Proof.
  intros other d.
  assert (Hn : (0 < length d)%nat) by (vm_compute; lia).
  assert (H60 : css_color other ("#3b82f6" ++ "60") = true) by reflexivity.
  assert (Hc : css_color other "#3b82f6" = true) by reflexivity.
  split; [exact Hn|]. split; [exact H60|]. split; [exact Hc|].
  destruct (drawWaveform_vertices other "#3b82f6" 1 (mkCanvas 640 480) d Hn H60 Hc)
    as (cs & Hd & _ & Hm & Hl & _).
  exists cs. split; [exact Hd|]. split; [exact Hm|exact Hl].
Defined.










(* ------------------------------------------------------------------ *)
(** * Further properties of the code *)

Lemma byte_copy_length (bins da : snapshot) :
  length (byte_copy bins da) = length da.
Proof.
  unfold byte_copy. rewrite length_app, length_firstn, length_skipn. lia.
Qed.

Lemma slice_all (d : snapshot) : slice d 0 (length d) = d.
Proof. unfold slice. rewrite Nat.sub_0_r. simpl. apply firstn_all. Qed.

Lemma average_value (d : snapshot) :
  d <> [] ->
  js_div (sum_range d 0 (length d)) (Z.of_nat (length d)) = Num (mean d).
Proof.
  intros Hne.
  assert (Hl : (0 < length d)%nat) by (destruct d; [congruence|simpl; lia]).
  rewrite <- (Nat.sub_0_r (length d)) at 2.
  rewrite band_value_mean by lia. now rewrite slice_all.
Qed.

Lemma getFrequencyData_step (s : St) (bins : snapshot) (a : nat) (da : snapshot) :
  analyser (st_mod s) = Some a -> dataArray (st_mod s) = Some da ->
  getFrequencyData bins s
  = (Ok (Some (byte_copy bins da)),
     mkSt (mkMod (audioContext (st_mod s)) (Some a)
                 (Some (byte_copy bins da)) (source (st_mod s)) (gainNode (st_mod s)))
          (st_world s)).
Proof.
  destruct s as [[ac an d so gn] w]; cbn. intros -> ->. reflexivity.
Qed.

(** X1: with an analyser and a buffer in place, [getAverageFrequency()] copies
    the analyser's bins into the module's buffer (keeping the buffer's
    length) and returns the arithmetic mean of the refreshed buffer; an
    empty buffer gives [0/0], that is [NaN]. *)
Theorem getAverageFrequency_mean_of_buffer (s : St) (bins : snapshot) (a : nat)
  (da : snapshot)
  (Ha : analyser (st_mod s) = Some a) (Hd : dataArray (st_mod s) = Some da) :
  let da' := byte_copy bins da in
  length da' = length da /\
  dataArray (st_mod (snd (getAverageFrequency bins s))) = Some da' /\
  fst (getAverageFrequency bins s)
    = Ok (if (length da =? 0)%nat then NaN else Num (mean da')).
Proof.
  intros da'.
  assert (E : getAverageFrequency bins s
              = (Ok (js_div (sum_range da' 0 (length da')) (Z.of_nat (length da'))),
                 snd (getFrequencyData bins s))).
  { unfold getAverageFrequency, bind at 1. rewrite (getFrequencyData_step s bins a da Ha Hd).
    reflexivity. }
  rewrite E. cbn [fst snd]. rewrite (getFrequencyData_step s bins a da Ha Hd). cbn.
  split; [apply byte_copy_length|]. split; [reflexivity|].
  destruct (Nat.eqb_spec (length da) 0) as [H0|H0].
  - unfold da'. rewrite byte_copy_length, H0. reflexivity.
  - rewrite average_value; [reflexivity|].
    intros Hn. apply H0. rewrite <- (byte_copy_length bins da). fold da'. now rewrite Hn.
Qed.

Lemma getAverageFrequency_mean_of_buffer_witness :
  let s := snd (initializeAudioContext (Some 7%nat) initial_state) in
  analyser (st_mod s) = Some 1%nat /\
  dataArray (st_mod s) = Some (repeat 0 frequencyBinCount) /\
  fst (getAverageFrequency [10; 20; 30] s)
    = Ok (Num (mean (byte_copy [10; 20; 30] (repeat 0 frequencyBinCount)))).
Proof.
  intros s.
  assert (Ha : analyser (st_mod s) = Some 1%nat) by reflexivity.
  assert (Hd : dataArray (st_mod s) = Some (repeat 0 frequencyBinCount)) by reflexivity.
  split; [exact Ha|]. split; [exact Hd|].
  destruct (getAverageFrequency_mean_of_buffer s [10; 20; 30] 1 _ Ha Hd) as (_ & _ & H).
  rewrite H. reflexivity.
Defined.

(** X2: before the analyser and the buffer both exist, [getAverageFrequency],
    [getBassFrequency], [getMidFrequency] and [getTrebleFrequency] return
    [0] and [detectBeat()] returns [false], and none of them changes any
    state. *)
Theorem getters_zero_when_not_ready (s : St) (bins : snapshot)
  (H : analyser (st_mod s) = None \/ dataArray (st_mod s) = None) :
  getAverageFrequency bins s = (Ok (Num 0), s) /\
  getBassFrequency_st bins s = (Ok (Num 0), s) /\
  getMidFrequency_st bins s = (Ok (Num 0), s) /\
  getTrebleFrequency_st bins s = (Ok (Num 0), s) /\
  detectBeat None bins s = (Ok false, s).
Proof.
  assert (E : getFrequencyData bins s = (Ok None, s)).
  { unfold getFrequencyData, bind, get_mod; cbn.
    destruct H as [H|H]; rewrite H; [reflexivity|].
    destruct (analyser (st_mod s)); reflexivity. }
  unfold detectBeat, getAverageFrequency, getBassFrequency_st, getMidFrequency_st,
    getTrebleFrequency_st, bind. rewrite E.
  repeat split; reflexivity.
Qed.

Lemma getters_zero_when_not_ready_witness :
  (analyser (st_mod initial_state) = None \/ dataArray (st_mod initial_state) = None) /\
  getAverageFrequency [200; 220] initial_state = (Ok (Num 0), initial_state) /\
  detectBeat None [250; 250] initial_state = (Ok false, initial_state).
Proof.
  assert (H : analyser (st_mod initial_state) = None \/
              dataArray (st_mod initial_state) = None) by (left; reflexivity).
  split; [exact H|]. split.
  - exact (proj1 (getters_zero_when_not_ready initial_state [200; 220] H)).
  - exact (proj2 (proj2 (proj2 (proj2 (getters_zero_when_not_ready initial_state [250; 250] H))))).
Defined.

Lemma sum_bytes (l : list Z) :
  Forall (fun b => 0 <= b <= 255) l ->
  0 <= sum l <= 255 * Z.of_nat (length l).
Proof.
  induction 1 as [|x l Hx _ IH]; simpl; lia.
Qed.

Lemma mean_bytes (l : list Z) :
  Forall (fun b => 0 <= b <= 255) l -> l <> [] ->
  (0 <= mean l <= 255)%Q.
Proof.
  intros Hf Hne. pose proof (sum_bytes l Hf) as Hs.
  assert (Hl : 0 < Z.of_nat (length l)) by (destruct l; [congruence|simpl; lia]).
  unfold mean. split.
  - apply Qle_shift_div_l.
    + change (inject_Z 0 < inject_Z (Z.of_nat (length l)))%Q.
      rewrite <- Zlt_Qlt; exact Hl.
    + rewrite Qmult_0_l. change (inject_Z 0 <= inject_Z (sum l))%Q.
      rewrite <- Zle_Qle. lia.
  - apply Qle_shift_div_r.
    + change (inject_Z 0 < inject_Z (Z.of_nat (length l)))%Q.
      rewrite <- Zlt_Qlt; exact Hl.
    + change (inject_Z (sum l) <= inject_Z 255 * inject_Z (Z.of_nat (length l)))%Q.
      rewrite <- inject_Z_mult, <- Zle_Qle. lia.
Qed.

Lemma Forall_slice (P : Z -> Prop) (d : snapshot) (s e : nat) :
  Forall P d -> Forall P (slice d s e).
Proof.
  intros H. unfold slice. rewrite Forall_forall in *.
  intros x Hx. apply H.
  rewrite <- (firstn_skipn s d). apply in_or_app. right.
  rewrite <- (firstn_skipn (e - s) (skipn s d)). apply in_or_app. left. exact Hx.
Qed.

Lemma slices_nonempty (bins : snapshot) (s e : nat) :
  length bins = frequencyBinCount -> (s < e <= 128)%nat -> slice bins s e <> [].
Proof.
  intros Hl He Hn. pose proof (slice_length bins s e) as L.
  rewrite Hn in L. simpl in L. rewrite Hl in L. specialize (L ltac:(cbv; lia)). lia.
Qed.

(** X3: on a ready graph whose buffer has [frequencyBinCount] (128) bytes, for
    every 128-bin snapshot of bytes the average is the mean of all bins,
    bass, mid and treble are the means of bins 0-15, 16-79 and 80-127, and
    all four values lie in [[0, 255]]. *)
Theorem band_levels_on_ready_graph (s : St) (bins : snapshot) (a : nat) (da : snapshot)
  (Ha : analyser (st_mod s) = Some a) (Hd : dataArray (st_mod s) = Some da)
  (Hlen : length da = frequencyBinCount) (Hbins : length bins = frequencyBinCount)
  (Hbytes : Forall (fun b => 0 <= b <= 255) bins) :
  fst (getAverageFrequency bins s) = Ok (Num (mean bins)) /\
  fst (getBassFrequency_st bins s) = Ok (Num (mean (slice bins 0 16))) /\
  fst (getMidFrequency_st bins s) = Ok (Num (mean (slice bins 16 80))) /\
  fst (getTrebleFrequency_st bins s) = Ok (Num (mean (slice bins 80 128))) /\
  Forall (fun q => 0 <= q <= 255)%Q
    [mean bins; mean (slice bins 0 16); mean (slice bins 16 80);
     mean (slice bins 80 128)].
Proof.
  assert (Hc : byte_copy bins da = bins) by (apply byte_copy_same_length; congruence).
  assert (Hne : bins <> []) by (intros ->; discriminate Hbins).
  unfold getAverageFrequency, getBassFrequency_st, getMidFrequency_st,
    getTrebleFrequency_st, bind.
  rewrite (getFrequencyData_step s bins a da Ha Hd), Hc. cbn [fst].
  split; [|split; [|split; [|split]]].
  - unfold ret. cbn [fst]. now rewrite average_value.
  - unfold ret. cbn [fst]. unfold getBassFrequency, bass_divisor. rewrite Hbins.
    change (bass_end frequencyBinCount) with 16%nat.
    change (Z.of_nat 16) with (Z.of_nat (16 - 0)).
    rewrite band_value_mean by (try rewrite Hbins; cbv; lia). reflexivity.
  - unfold ret. cbn [fst]. unfold getMidFrequency, mid_divisor. rewrite Hbins.
    change (mid_start frequencyBinCount) with 16%nat.
    change (mid_end frequencyBinCount) with 80%nat.
    rewrite band_value_mean by (try rewrite Hbins; cbv; lia). reflexivity.
  - unfold ret. cbn [fst]. unfold getTrebleFrequency, treble_divisor. rewrite Hbins.
    change (treble_start frequencyBinCount) with 80%nat.
    change frequencyBinCount with 128%nat.
    rewrite band_value_mean by (try rewrite Hbins; cbv; lia). reflexivity.
  - repeat constructor; try apply mean_bytes; try apply Forall_slice; try exact Hbytes;
      try exact Hne; apply slices_nonempty; (exact Hbins || lia).
Qed.

Lemma band_levels_on_ready_graph_witness :
  let s := snd (initializeAudioContext (Some 7%nat) initial_state) in
  let bins := map Z.of_nat (seq 0 128) in
  fst (getBassFrequency_st bins s) = Ok (Num (mean (slice bins 0 16))).
Proof.
  intros s bins.
  refine (proj1 (proj2 (band_levels_on_ready_graph s bins 1 (repeat 0 frequencyBinCount)
                          _ _ _ _ _))).
  - reflexivity.
  - reflexivity.
  - reflexivity.
  - reflexivity.
  - unfold bins. vm_compute. repeat constructor; discriminate.
Defined.

Ltac crunch :=
  repeat (first [ rewrite Nat.eqb_refl
                | match goal with
                  | E : lookup ?c ?l = _ |- context [lookup ?c ?l] => rewrite E
                  end
                | match goal with
                  | |- context [match lookup ?k ?l with _ => _ end] =>
                      destruct (lookup k l) eqn:?
                  | |- context [if has_edge ?a ?b ?w then _ else _] =>
                      destruct (has_edge a b w) eqn:?
                  | |- context [if ?b then _ else _] => destruct b eqn:?
                  end ]; cbn).



(** X5: after [cleanupAudioContext()], [getAudioContextState()] reports
    ["not-initialized"] or ["closed"], never ["running"] or
    ["suspended"]. *)
Theorem cleanup_reports_not_running (s : St) :
  let r := fst (getAudioContextState (snd (cleanupAudioContext s))) in
  r = Ok "not-initialized"%string \/ r = Ok "closed"%string.
Proof.
  destruct s as [[ac an da so gn] [nx tm cx tp ed gs]].
  destruct so, an, gn, ac as [c|];
    cbv [cleanupAudioContext try_catch bind get_mod get_world modify_mod
         modify_world set_source set_analyser set_gainNode set_audioContext
         set_dataArray disconnect ctx_state ctx_close set_ctx_state ret
         getAudioContextState]; cbn; crunch; auto;
    match goal with H : CtxState_eqb ?x Closed = _ |- _ => destruct x end;
    auto; discriminate.
Qed.



Lemma lookup_none_count (el : nat) (l : list (nat * nat)) :
  lookup el l = None -> length (filter (is_key el) l) = 0%nat.
Proof.
  induction l as [|[k v] l IH]; simpl; auto.
  unfold is_key at 1; simpl.
  destruct (Nat.eqb_spec el k) as [->|Hne].
  - discriminate.
  - rewrite (proj2 (Nat.eqb_neq k el) (not_eq_sym Hne)). exact IH.
Qed.

Lemma connectAnalyzer_untapped_wires (el : nat) (s : St) :
  lookup el (w_tapped (st_world s)) = None ->
  exists a, fst (connectAnalyzer el s) = Ok a /\
            analyser (st_mod (snd (connectAnalyzer el s))) = Some a /\
            Bound el (snd (connectAnalyzer el s)).
Proof.
  intros H. destruct s as [[ac an da so gn] [nx tm cx tp ed gs]]; cbn in H.
  pose proof (lookup_none_count el tp H) as H0.
  destruct ac, an, gn; run_module; crunch; rewrite ?H; cbn; crunch;
    eexists; (split; [reflexivity|]); (split; [reflexivity|]);
    do 4 eexists; repeat split; cbn; unfold tapped_count; cbn;
    unfold is_key; cbn; rewrite ?Nat.eqb_refl; cbn; try (fold (is_key el); rewrite H0); try reflexivity;
    unfold has_edge; cbn; rewrite ?Nat.eqb_refl; cbn; auto;
    repeat match goal with
           | E : ?b = true |- context [?b] => rewrite E
           end; rewrite ?orb_true_r; reflexivity.
Qed.

(** X7: [connectAnalyzer(el)] for an element that has no source node yet
    returns the module's analyser and leaves the graph tapping [el]: one
    source node for [el], held in [source], wired through the analyser and
    the gain to the destination. *)
Theorem connectAnalyzer_binds_untapped (el : nat) (s : St)
  (H : lookup el (w_tapped (st_world s)) = None) :
  exists a, fst (connectAnalyzer el s) = Ok a /\
            analyser (st_mod (snd (connectAnalyzer el s))) = Some a /\
            Bound el (snd (connectAnalyzer el s)).
Proof. exact (connectAnalyzer_untapped_wires el s H). Qed.

Lemma connectAnalyzer_frame (el c a g : nat) (s : St)
  (Hc : audioContext (st_mod s) = Some c) (Ha : analyser (st_mod s) = Some a)
  (Hg : gainNode (st_mod s) = Some g)
  (H : lookup el (w_tapped (st_world s)) = None) :
  let s' := snd (connectAnalyzer el s) in
  audioContext (st_mod s') = Some c /\ analyser (st_mod s') = Some a /\
  gainNode (st_mod s') = Some g /\
  w_tapped (st_world s') = (el, w_next (st_world s)) :: w_tapped (st_world s) /\
  (forall x y, has_edge x y (st_world s) = true -> has_edge x y (st_world s') = true).
Proof.
  destruct s as [[ac an da so gn] [nx tm cx tp ed gs]]; cbn in *; subst.
  run_module. rewrite H. cbn.
  crunch; repeat split; try reflexivity; intros x y Hxy; unfold has_edge in *; cbn in *;
    rewrite Hxy; rewrite ?orb_true_r; reflexivity.
Qed.

Lemma connectAnalyzer_binds_untapped_witness :
  lookup 4%nat (w_tapped (st_world initial_state)) = None /\
  exists a, fst (connectAnalyzer 4 initial_state) = Ok a /\
            analyser (st_mod (snd (connectAnalyzer 4 initial_state))) = Some a /\
            Bound 4 (snd (connectAnalyzer 4 initial_state)).
Proof.
  assert (H : lookup 4%nat (w_tapped (st_world initial_state)) = None) by reflexivity.
  split; [exact H|]. exact (connectAnalyzer_binds_untapped 4 initial_state H).
Defined.

(** X8: connecting a second, untapped element while a first one is bound
    leaves both wired: the first element keeps its signal path (its source
    node is not disconnected although [source] now holds the new node), and
    the second gets one. *)
Theorem connectAnalyzer_second_element_keeps_first (e1 e2 : nat) (s : St)
  (H1 : Bound e1 s) (H2 : lookup e2 (w_tapped (st_world s)) = None) :
  let s' := snd (connectAnalyzer e2 s) in
  Bound e2 s' /\ signal_paths e1 s' = 1%nat /\ signal_paths e2 s' = 1%nat.
Proof.
  intros s'.
  assert (HB2 : Bound e2 s').
  { destruct (connectAnalyzer_untapped_wires e2 s H2) as (a & _ & _ & HB). exact HB. }
  split; [exact HB2|]. split; [|now apply Bound_signal_paths].
  destruct H1 as (c & a & g & n & Hc & Ha & Hg & Hs & Hcount & Hl & Hna & Hag & Hgd).
  assert (Hne : e1 <> e2) by (intros ->; congruence).
  destruct (connectAnalyzer_frame e2 c a g s Hc Ha Hg H2)
    as (Hc' & Ha' & Hg' & Ht' & Hmono).
  fold s' in Hc', Ha', Hg', Ht', Hmono.
  unfold signal_paths. rewrite Hc', Ha', Hg', Ht'. cbn.
  unfold is_key at 1; cbn.
  rewrite (proj2 (Nat.eqb_neq e2 e1) (not_eq_sym Hne)); cbn.
  rewrite (filter_key_single e1 n _ _ Hcount Hl). cbn.
  now rewrite (Hmono _ _ Hna), (Hmono _ _ Hag), (Hmono _ _ Hgd).
Qed.

Lemma connectAnalyzer_second_element_keeps_first_witness :
  let s := snd (connectAnalyzer 4 initial_state) in
  Bound 4 s /\ lookup 9%nat (w_tapped (st_world s)) = None /\
  signal_paths 4 (snd (connectAnalyzer 9 s)) = 1%nat /\
  signal_paths 9 (snd (connectAnalyzer 9 s)) = 1%nat.
Proof.
  intros s.
  assert (HB : Bound 4 s) by (exists 0%nat, 1%nat, 2%nat, 3%nat; vm_compute; repeat split).
  assert (H2 : lookup 9%nat (w_tapped (st_world s)) = None) by reflexivity.
  split; [exact HB|]. split; [exact H2|].
  exact (proj2 (connectAnalyzer_second_element_keeps_first 4 9 s HB H2)).
Defined.

Lemma existsb_out_filtered (n : nat) (P : nat * nat -> bool) (l : list (nat * nat)) :
  existsb (fun e => Nat.eqb (fst e) n && P e)
          (filter (fun e => negb (Nat.eqb (fst e) n)) l) = false.
Proof.
  induction l as [|[k v] l IH]; cbn; auto.
  destruct (Nat.eqb k n) eqn:E; cbn; auto. rewrite E. exact IH.
Qed.

Lemma existsb_filter_false {A} (f P : A -> bool) (l : list A) :
  existsb P l = false -> existsb P (filter f l) = false.
Proof.
  induction l as [|x l IH]; cbn; auto.
  intros H. apply orb_false_iff in H as [H1 H2].
  destruct (f x); cbn; rewrite ?H1; auto.
Qed.

(** After [cleanupAudioContext] on a bound graph, the old source node
    has no outgoing connection, the element table is unchanged and the
    module holds no source, analyser, gain node or buffer. *)
Lemma cleanup_frame (el : nat) (s : St) (n : nat) :
  source (st_mod s) = Some n ->
  let s1 := snd (cleanupAudioContext s) in
  source (st_mod s1) = None /\ analyser (st_mod s1) = None /\
  gainNode (st_mod s1) = None /\ dataArray (st_mod s1) = None /\
  w_tapped (st_world s1) = w_tapped (st_world s) /\
  (forall x, has_edge n x (st_world s1) = false).
Proof.
  destruct s as [[ac an da so gn] [nx tm cx tp ed gs]]; cbn; intros ->.
  destruct an, gn, ac as [c|];
    try (destruct (lookup c cx) as [[]|] eqn:E);
    cbv [cleanupAudioContext try_catch bind get_mod get_world modify_mod
         modify_world set_source set_analyser set_gainNode set_audioContext
         set_dataArray disconnect ctx_state ctx_close set_ctx_state ret];
    cbn; rewrite ?E; cbn; rewrite ?Nat.eqb_refl; cbn; rewrite ?E;
    repeat split; try reflexivity; intros x; unfold has_edge; cbn;
    repeat first [apply existsb_out_filtered | apply existsb_filter_false].
Qed.

(** [initializeAudioContext(el)] with no source held and [el] already
    tapped: it creates what is missing, then [createMediaElementSource]
    throws and the result is [false]; no connection is made. *)
Lemma init_tapped_frame (el m : nat) (s : St) :
  source (st_mod s) = None -> lookup el (w_tapped (st_world s)) = Some m ->
  let r := initializeAudioContext (Some el) s in
  fst r = Ok false /\ source (st_mod (snd r)) = None /\
  dataArray (st_mod (snd r)) = dataArray (st_mod s) /\
  w_tapped (st_world (snd r)) = w_tapped (st_world s) /\
  w_edges (st_world (snd r)) = w_edges (st_world s) /\
  exists c a g, audioContext (st_mod (snd r)) = Some c /\
                analyser (st_mod (snd r)) = Some a /\
                gainNode (st_mod (snd r)) = Some g.
Proof.
  destruct s as [[ac an da so gn] [nx tm cx tp ed gs]]; cbn; intros -> Hm.
  destruct ac, an, gn; run_module; crunch; rewrite ?Hm; cbn;
    repeat split; try reflexivity; do 3 eexists; repeat split.
Qed.

Lemma connectAnalyzer_tapped_throws (el m : nat) (s : St) :
  lookup el (w_tapped (st_world s)) = Some m ->
  fst (connectAnalyzer el s) = Throw "InvalidStateError"%string.
Proof.
  destruct s as [[ac an da so gn] [nx tm cx tp ed gs]]; cbn; intros Hm.
  destruct ac, an, gn; run_module; crunch; rewrite ?Hm; reflexivity.
Qed.

(** X9: after [cleanupAudioContext()] on a graph bound to [el],
    [initializeAudioContext(el)] fails (the element keeps the source node of
    the closed graph, so [createMediaElementSource] throws) and returns
    [isInitialized = false]; no source and no buffer are held, so
    [getFrequencyData()] returns [null], [connectAnalyzer(el)] throws
    [InvalidStateError], and [el] has no signal path in the new graph. *)
Theorem cleanup_then_reinit_fails (el : nat) (bins : snapshot) (s : St)
  (H : Bound el s) :
  let s1 := snd (cleanupAudioContext s) in
  let r := initializeAudioContext (Some el) s1 in
  let s2 := snd r in
  fst r = Ok false /\ source (st_mod s2) = None /\
  fst (getFrequencyData bins s2) = Ok None /\
  fst (connectAnalyzer el s2) = Throw "InvalidStateError"%string /\
  signal_paths el s2 = 0%nat.
Proof.
  intros s1 r s2.
  destruct H as (c & a & g & n & Hc & Ha & Hg & Hs & Hcount & Hl & _ & _ & _).
  destruct (cleanup_frame el s n Hs) as (Hs1 & Ha1 & Hg1 & Hd1 & Ht1 & He1).
  fold s1 in Hs1, Ha1, Hg1, Hd1, Ht1, He1.
  assert (Hl1 : lookup el (w_tapped (st_world s1)) = Some n) by now rewrite Ht1.
  destruct (init_tapped_frame el n s1 Hs1 Hl1)
    as (Hr & Hs2 & Hd2 & Ht2 & He2 & c' & a' & g' & Hc2 & Ha2 & Hg2).
  fold r in Hr, Hs2, Hd2, Ht2, He2, Hc2, Ha2, Hg2.
  fold s2 in Hs2, Hd2, Ht2, He2, Hc2, Ha2, Hg2.
  split; [exact Hr|]. split; [exact Hs2|]. split.
  { unfold getFrequencyData, bind, get_mod, ret.
    rewrite Ha2, Hd2, Hd1. reflexivity. }
  split.
  { apply (connectAnalyzer_tapped_throws el n). now rewrite Ht2. }
  unfold signal_paths. rewrite Hc2, Ha2, Hg2, Ht2, Ht1.
  rewrite (filter_key_single el n _ _ Hcount Hl). cbn.
  assert (Hna : has_edge n a' (st_world s2) = false).
  { specialize (He1 a'). unfold has_edge in *. now rewrite He2. }
  now rewrite Hna.
Qed.

Lemma cleanup_then_reinit_fails_witness :
  let s := snd (connectAnalyzer 4 initial_state) in
  Bound 4 s /\
  fst (initializeAudioContext (Some 4%nat) (snd (cleanupAudioContext s))) = Ok false /\
  signal_paths 4 (snd (initializeAudioContext (Some 4%nat) (snd (cleanupAudioContext s))))
    = 0%nat.
Proof.
  intros s.
  assert (HB : Bound 4 s) by (exists 0%nat, 1%nat, 2%nat, 3%nat; vm_compute; repeat split).
  destruct (cleanup_then_reinit_fails 4 [] s HB) as (H1 & _ & _ & _ & H5).
  split; [exact HB|]. split; [exact H1|exact H5].
Defined.

Ltac run_world :=
  cbv [in_world new_AudioContext createAnalyser fresh initAudioContext
       connect_effect player_mount prefs_initial
       createMediaElementSource connect disconnect set_ctx_state
       try_catch bind get_mod get_world modify_mod modify_world ret throw]; cbn.

Lemma connect_effect_tapped (el c a n m : nat) (r : PRefs) (w : World) :
  ap_audioContextRef r = Some c -> ap_analyzerRef r = Some a ->
  ap_sourceRef r = Some n -> lookup el (w_tapped w) = Some m ->
  fst (connect_effect el r w) = r /\
  w_tapped (snd (connect_effect el r w)) = w_tapped w /\
  (forall x, has_edge n x (snd (connect_effect el r w)) = false).
Proof.
  destruct r as [rc ra rs]; destruct w as [nx tm cx tp ed gs]; cbn.
  intros -> -> -> Hm. run_world. rewrite Hm. cbn.
  repeat split. intros x. unfold has_edge; cbn. apply existsb_out_filtered.
Qed.

Lemma track_changes_tapped (el c a n m k : nat) (r : PRefs) (w : World) :
  ap_audioContextRef r = Some c -> ap_analyzerRef r = Some a ->
  ap_sourceRef r = Some n -> lookup el (w_tapped w) = Some m ->
  (0 < k)%nat ->
  fst (track_changes el k r w) = r /\
  w_tapped (snd (track_changes el k r w)) = w_tapped w /\
  (forall x, has_edge n x (snd (track_changes el k r w)) = false).
Proof.
  intros Hc Ha Hs Hm Hk. revert w Hm.
  induction k as [|k IH]; [lia|]. intros w Hm. cbn [track_changes].
  destruct (connect_effect_tapped el c a n m r w Hc Ha Hs Hm) as (Hr & Ht & He).
  destruct (connect_effect el r w) as [r1 w1] eqn:E. cbn in Hr, Ht, He. subst r1.
  destruct k as [|k].
  - cbn. auto.
  - assert (Hm1 : lookup el (w_tapped w1) = Some m) by now rewrite Ht.
    destruct (IH ltac:(lia) w1 Hm1) as (Hr' & Ht' & He').
    rewrite Ht in Ht'. auto.
Qed.

Lemma player_mount_wires (el : nat) (w : World) :
  lookup el (w_tapped w) = None ->
  exists c a n,
    fst (player_mount el w) = mkPRefs (Some c) (Some a) (Some n) /\
    w_tapped (snd (player_mount el w)) = (el, n) :: w_tapped w /\
    has_edge n a (snd (player_mount el w)) = true /\
    has_edge a (destination c) (snd (player_mount el w)) = true.
Proof.
  destruct w as [nx tm cx tp ed gs]; cbn. intros Hm.
  run_world. rewrite Hm. cbn. crunch; do 3 eexists; repeat split;
    unfold has_edge; cbn; rewrite ?Nat.eqb_refl; cbn; auto;
    repeat match goal with
           | E : ?b = true |- context [?b] => rewrite E
           end; rewrite ?orb_true_r; reflexivity.
Qed.

(** X11: mounting [AudioPlayer] on an untapped element wires element ->
    source -> analyser -> destination; after any positive number of
    [currentTrack] changes the refs are unchanged, the element still has
    its single source node, and that node has no outgoing connection: the
    effect disconnects it and the new [createMediaElementSource] throws, so
    the element is no longer heard. *)
Theorem player_track_change_silences_element (el k : nat) (w : World)
  (H : lookup el (w_tapped w) = None) (Hk : (0 < k)%nat) :
  let m := player_mount el w in
  let t := track_changes el k (fst m) (snd m) in
  exists c a n,
    fst m = mkPRefs (Some c) (Some a) (Some n) /\
    tapped_count el (snd m) = 1%nat /\ lookup el (w_tapped (snd m)) = Some n /\
    has_edge n a (snd m) = true /\ has_edge a (destination c) (snd m) = true /\
    fst t = fst m /\
    tapped_count el (snd t) = 1%nat /\ lookup el (w_tapped (snd t)) = Some n /\
    (forall x, has_edge n x (snd t) = false).
Proof.
  intros m t.
  destruct (player_mount_wires el w H) as (c & a & n & Hr & Ht & Hna & Had).
  fold m in Hr, Ht, Hna, Had.
  assert (Hl : lookup el (w_tapped (snd m)) = Some n)
    by (rewrite Ht; cbn; now rewrite Nat.eqb_refl).
  assert (Hcnt : tapped_count el (snd m) = 1%nat).
  { unfold tapped_count. rewrite Ht.
    pose proof (lookup_none_count el _ H) as H0.
    cbn [filter length]. unfold is_key at 1. cbn [fst].
    rewrite Nat.eqb_refl. cbn [length]. now rewrite H0. }
  destruct (track_changes_tapped el c a n n k (fst m) (snd m))
    as (Hr' & Ht' & He'); try (rewrite Hr; reflexivity); auto.
  fold t in Hr', Ht', He'.
  exists c, a, n. repeat split; auto.
  - unfold tapped_count in *. now rewrite Ht'.
  - now rewrite Ht'.
Qed.

Lemma player_track_change_silences_element_witness :
  lookup 5%nat (w_tapped initial_world) = None /\ (0 < 2)%nat /\
  let m := player_mount 5 initial_world in
  let t := track_changes 5 2 (fst m) (snd m) in
  exists c a n,
    fst m = mkPRefs (Some c) (Some a) (Some n) /\
    tapped_count 5 (snd m) = 1%nat /\ lookup 5 (w_tapped (snd m)) = Some n /\
    has_edge n a (snd m) = true /\ has_edge a (destination c) (snd m) = true /\
    fst t = fst m /\
    tapped_count 5 (snd t) = 1%nat /\ lookup 5 (w_tapped (snd t)) = Some n /\
    (forall x, has_edge n x (snd t) = false).
Proof.
  split; [reflexivity|]. split; [lia|].
  apply (player_track_change_silences_element 5 2 initial_world); [reflexivity|lia].
Defined.

(** X12: the first [initializeAudioContext] of [Visualizer] on an untapped
    element assigns context, analyser and source, wires source -> analyser
    -> destination, allocates a buffer of [frequencyBinCount] zero bytes and
    sets [isInitialized]; a further call changes nothing. *)
Theorem vis_init_untapped_then_idle (el : nat) (r : VRefs) (w : World)
  (Hi : isInitialized r = false) (Hm : lookup el (w_tapped w) = None) :
  let (r1, w1) := vis_initializeAudioContext (Some el) r w in
  exists c a n,
    r1 = mkVRefs (Some c) (Some a) (Some n) (Some (repeat 0 frequencyBinCount)) true /\
    lookup el (w_tapped w1) = Some n /\
    has_edge n a w1 = true /\ has_edge a (destination c) w1 = true /\
    vis_initializeAudioContext (Some el) r1 w1 = (r1, w1).
Proof.
  destruct r as [rc ra rs rd ri]; destruct w as [nx tm cx tp ed gs]; cbn in Hi, Hm; subst ri.
  cbv [vis_initializeAudioContext]; run_world. rewrite Hm. cbn.
  crunch; do 3 eexists; repeat split;
    unfold has_edge; cbn; rewrite ?Nat.eqb_refl; cbn; auto;
    repeat match goal with
           | E : ?b = true |- context [?b] => rewrite E
           end; rewrite ?orb_true_r; reflexivity.
Qed.

Lemma vis_init_untapped_then_idle_witness :
  isInitialized vrefs_initial = false /\ lookup 3%nat (w_tapped initial_world) = None /\
  let (r1, w1) := vis_initializeAudioContext (Some 3%nat) vrefs_initial initial_world in
  exists c a n,
    r1 = mkVRefs (Some c) (Some a) (Some n) (Some (repeat 0 frequencyBinCount)) true /\
    lookup 3 (w_tapped w1) = Some n /\
    has_edge n a w1 = true /\ has_edge a (destination c) w1 = true /\
    vis_initializeAudioContext (Some 3%nat) r1 w1 = (r1, w1).
Proof.
  split; [reflexivity|]. split; [reflexivity|].
  exact (vis_init_untapped_then_idle 3 vrefs_initial initial_world eq_refl eq_refl).
Defined.



(** X14: without shuffle, from a track in range, [playNext] and [playPrevious]
    stay in range, undo each other, reset the time to [0], and five
    [playNext] calls come back to the starting track. *)
Theorem track_navigation_cycle (r : Q) (p : Player)
  (Hs : isShuffled p = false)
  (Ht : 0 <= currentTrack p < audioSamples_length) :
  0 <= currentTrack (playNext r p) < audioSamples_length /\
  0 <= currentTrack (playPrevious p) < audioSamples_length /\
  currentTrack (playPrevious (playNext r p)) = currentTrack p /\
  currentTrack (playNext r (playPrevious p)) = currentTrack p /\
  currentTrack (Nat.iter (length audioSamples) (playNext r) p) = currentTrack p /\
  currentTime (playNext r p) = 0%Q /\ currentTime (playPrevious p) = 0%Q.
Proof.
  destruct p as [ip t ct du vo mu sh rm ev ec]; cbn in Hs, Ht |- *; subst sh.
  unfold audioSamples_length in *; cbn in Ht.
  assert (t = 0 \/ t = 1 \/ t = 2 \/ t = 3 \/ t = 4) as Hc by lia.
  destruct Hc as [->|[->|[->|[->| ->]]]]; cbn; repeat split; lia.
Qed.

Lemma track_navigation_cycle_witness :
  let p := set_currentTrack 4 player_initial in
  isShuffled p = false /\ 0 <= currentTrack p < audioSamples_length /\
  currentTrack (playNext 0 p) = 0 /\
  currentTrack (playPrevious (playNext 0 p)) = 4.
Proof.
  intros p.
  assert (Hs : isShuffled p = false) by reflexivity.
  assert (Ht : 0 <= currentTrack p < audioSamples_length)
    by (unfold audioSamples_length; simpl; lia).
  destruct (track_navigation_cycle 0 p Hs Ht) as (_ & _ & H3 & _).
  split; [exact Hs|]. split; [exact Ht|]. split; [reflexivity|exact H3].
Defined.

Lemma Qfloor_small (x : Q) (n : Z) :
  (0 <= x)%Q -> (x < inject_Z n)%Q -> 0 <= Qfloor x < n.
Proof.
  intros H0 H1. split.
  - change 0 with (Qfloor 0). apply Qfloor_resp_le. exact H0.
  - destruct (Z_lt_le_dec (Qfloor x) n) as [H|H]; [exact H|].
    exfalso. rewrite Zle_Qle in H.
    pose proof (Qfloor_le x). apply (Qlt_irrefl x).
    apply Qlt_le_trans with (inject_Z n); [exact H1|].
    apply Qle_trans with (inject_Z (Qfloor x)); assumption.
Qed.

(** X15: with shuffle on and [Math.random()] in [[0, 1)], [playNext] picks a
    track in range and resets the time; it may pick the current track
    again. *)
Theorem shuffled_playNext_range (r : Q) (p : Player)
  (Hs : isShuffled p = true) (Hr : (0 <= r < 1)%Q) :
  0 <= currentTrack (playNext r p) < audioSamples_length /\
  currentTime (playNext r p) = 0%Q /\
  (0 <= currentTrack p < audioSamples_length ->
   exists r', (0 <= r' < 1)%Q /\ currentTrack (playNext r' p) = currentTrack p).
Proof.
  unfold playNext. rewrite Hs. cbn [set_currentTime set_currentTrack currentTrack currentTime].
  split; [|split; [reflexivity|]].
  - apply Qfloor_small.
    + apply Qmult_le_0_compat; [apply Hr|]. unfold audioSamples_length. cbn.
      unfold Qle; cbn; lia.
    + unfold audioSamples_length. cbn.
      setoid_replace (inject_Z 5) with (1 * inject_Z 5)%Q at 2 by ring.
      apply Qmult_lt_r; [unfold Qlt; cbn; lia|apply Hr].
  - intros Ht. exists (currentTrack p # 5)%Q. split.
    + unfold audioSamples_length in Ht. cbn in Ht.
      unfold Qle, Qlt; cbn; lia.
    + unfold audioSamples_length. cbn.
      unfold Qfloor; cbn. apply Z.div_mul. lia.
Qed.

Lemma shuffled_playNext_range_witness :
  let p := mkPlayer false 2 0 (Num 0) (7 # 10) false true "none" 1 0 in
  isShuffled p = true /\ (0 <= 1 # 2 < 1)%Q /\
  0 <= currentTrack (playNext (1 # 2) p) < audioSamples_length /\
  exists r', (0 <= r' < 1)%Q /\ currentTrack (playNext r' p) = currentTrack p.
Proof.
  intros p.
  assert (Hs : isShuffled p = true) by reflexivity.
  assert (Hr : (0 <= 1 # 2 < 1)%Q) by (unfold Qle, Qlt; simpl; lia).
  destruct (shuffled_playNext_range (1 # 2) p Hs Hr) as (H1 & _ & H3).
  split; [exact Hs|]. split; [exact Hr|]. split; [exact H1|].
  apply H3. unfold audioSamples_length; simpl; lia.
Defined.

(** X16: [toggleRepeat] maps ["none"] to ["all"], ["all"] to ["one"] and any
    other mode to ["none"]; its result is always one of the three modes,
    and from there it cycles with period three. *)
Theorem toggleRepeat_cycle (p : Player) :
  repeatMode (toggleRepeat p) =
    (if String.eqb (repeatMode p) "none" then "all"
     else if String.eqb (repeatMode p) "all" then "one" else "none")%string /\
  In (repeatMode (toggleRepeat p)) modes /\
  repeatMode (toggleRepeat (toggleRepeat (toggleRepeat (toggleRepeat p))))
    = repeatMode (toggleRepeat p).
Proof.
  destruct p as [ip t ct du vo mu sh rm ev ec]; cbn [repeatMode].
  unfold toggleRepeat; cbn [repeatMode set_repeatMode indexOf modes].
  rewrite (String.eqb_sym rm "none"), (String.eqb_sym rm "all").
  destruct (String.eqb "none" rm) eqn:E1; [cbn; auto 6|].
  destruct (String.eqb "all" rm) eqn:E2; [cbn; auto 6|].
  destruct (String.eqb "one" rm) eqn:E3; cbn; auto 6.
Qed.

(** X17: [handleLoadedMetadata], [handleVolumeChange] and [toggleMute] each
    leave the element's volume equal to [0] when muted and to [volume]
    otherwise; from a consistent state, two [toggleMute] calls restore mute flag and element volume;
    after the slider is moved to [0], unmuting leaves the element at volume
    [0]; the initial state does not satisfy this relation (element at [1],
    [volume] at [0.7]). *)
Theorem volume_mute_consistency (d : jsnum) (v : Q) (p : Player) :
  let inv q := (el_volume q == if isMuted q then 0 else volume q)%Q in
  inv (handleLoadedMetadata d p) /\ inv (handleVolumeChange v p) /\
  inv (toggleMute p) /\
  (inv p -> isMuted (toggleMute (toggleMute p)) = isMuted p /\
            (el_volume (toggleMute (toggleMute p)) == el_volume p)%Q) /\
  isMuted (toggleMute (handleVolumeChange 0 p)) = false /\
  (el_volume (toggleMute (handleVolumeChange 0 p)) == 0)%Q /\
  ~ inv player_initial.
Proof.
  intros inv.
  destruct p as [ip t ct du vo mu sh rm ev ec]; unfold inv; cbn.
  split; [destruct mu; reflexivity|].
  split; [destruct (Qeq_bool v 0) eqn:E; cbn;
          [symmetry; now apply Qeq_bool_eq | reflexivity]|].
  split; [destruct mu; reflexivity|].
  split; [destruct mu; cbn; intros H; split; auto; now symmetry|].
  split; [reflexivity|]. split; [reflexivity|].
  unfold Qeq; cbn; lia.
Qed.

Lemma volume_mute_consistency_witness :
  let p := handleLoadedMetadata (Num 100) player_initial in
  (el_volume p == (if isMuted p then 0 else volume p))%Q /\
  isMuted (toggleMute (toggleMute p)) = false /\
  (el_volume (toggleMute (toggleMute p)) == 7 # 10)%Q.
Proof.
  intros p.
  assert (Hinv : (el_volume p == (if isMuted p then 0 else volume p))%Q) by reflexivity.
  destruct (volume_mute_consistency (Num 100) 0 p) as (_ & _ & _ & H4 & _).
  destruct (H4 Hinv) as [H5 H6].
  split; [exact Hinv|]. split; [exact H5|]. rewrite H6. reflexivity.
Defined.

(** X18: at the end of a track, repeat ["one"] restarts the same track at time
    [0] and plays on; repeat ["all"] or a track before the last moves on
    with [playNext] and plays again once the 100 ms timer fires (without
    shuffle, to the next track, wrapping to [0]); otherwise playback stops
    on the same track. *)
Theorem handleEnded_cases (r : Q) (p : Player) :
  let p1 := fst (handleEnded r p) in
  let timer := snd (handleEnded r p) in
  (repeatMode p = "one"%string ->
     timer = false /\ isPlaying p1 = true /\ el_currentTime p1 = 0%Q /\
     currentTrack p1 = currentTrack p) /\
  (repeatMode p <> "one"%string ->
   (repeatMode p = "all"%string \/ currentTrack p < audioSamples_length - 1) ->
     timer = true /\ isPlaying p1 = false /\ currentTime p1 = 0%Q /\
     isPlaying (after_ended r p) = true /\
     (isShuffled p = false -> 0 <= currentTrack p < audioSamples_length ->
      currentTrack p1 = (currentTrack p + 1) mod audioSamples_length)) /\
  (repeatMode p <> "one"%string -> repeatMode p <> "all"%string ->
   audioSamples_length - 1 <= currentTrack p ->
     timer = false /\ isPlaying p1 = false /\ isPlaying (after_ended r p) = false /\
     currentTrack p1 = currentTrack p).
Proof.
  intros p1 timer. subst p1 timer.
  destruct p as [ip t ct du vo mu sh rm ev ec]; cbn [repeatMode currentTrack isShuffled].
  unfold after_ended, handleEnded; cbn [set_isPlaying repeatMode currentTrack].
  split; [|split].
  - intros ->. cbn. auto.
  - intros H1 H2. apply String.eqb_neq in H1. rewrite H1.
    assert (H3 : (String.eqb rm "all" || (t <? audioSamples_length - 1))%bool = true).
    { destruct H2 as [->|H2]; [reflexivity|]. apply orb_true_iff. right.
      now apply Z.ltb_lt. }
    rewrite H3. cbn. repeat split; [destruct sh; reflexivity|].
    intros -> Ht. unfold audioSamples_length in *; cbn in *.
    assert (t = 0 \/ t = 1 \/ t = 2 \/ t = 3 \/ t = 4) as Hc by lia.
    destruct Hc as [->|[->|[->|[->| ->]]]]; reflexivity.
  - intros H1 H2 H3. apply String.eqb_neq in H1, H2. rewrite H1, H2.
    assert (H4 : (t <? audioSamples_length - 1) = false) by (apply Z.ltb_ge; lia).
    rewrite H4. cbn. auto.
Qed.

Lemma handleEnded_cases_witness :
  let p := set_repeatMode "all" (set_currentTrack 4 player_initial) in
  repeatMode p <> "one"%string /\
  snd (handleEnded 0 p) = true /\ isPlaying (after_ended 0 p) = true /\
  currentTrack (fst (handleEnded 0 p)) = 0.
Proof.
  intros p.
  assert (H1 : repeatMode p <> "one"%string) by discriminate.
  assert (H2 : repeatMode p = "all"%string \/ currentTrack p < audioSamples_length - 1)
    by (left; reflexivity).
  destruct (handleEnded_cases 0 p) as (_ & Hb & _).
  destruct (Hb H1 H2) as (T1 & _ & _ & T4 & T5).
  split; [exact H1|]. split; [exact T1|]. split; [exact T4|].
  rewrite T5 by (reflexivity || (unfold audioSamples_length; simpl; lia)).
  reflexivity.
Defined.

Lemma Qfloor_unique (z : Z) (x : Q) :
  (inject_Z z <= x)%Q -> (x < inject_Z (z + 1))%Q -> Qfloor x = z.
Proof.
  intros H1 H2.
  pose proof (Qfloor_le x) as F1. pose proof (Qlt_floor x) as F2.
  apply Z.le_antisymm.
  - destruct (Z_le_gt_dec (Qfloor x) z) as [H|H]; [exact H|]. exfalso.
    assert (H' : (z + 1 <= Qfloor x)%Z) by lia. rewrite Zle_Qle in H'.
    apply (Qlt_irrefl x). apply Qlt_le_trans with (inject_Z (z + 1)); [exact H2|].
    now apply Qle_trans with (inject_Z (Qfloor x)).
  - destruct (Z_le_gt_dec z (Qfloor x)) as [H|H]; [exact H|]. exfalso.
    assert (H' : (Qfloor x + 1 <= z)%Z) by lia. rewrite Zle_Qle in H'.
    apply (Qlt_irrefl x). apply Qlt_le_trans with (inject_Z (Qfloor x + 1)); [exact F2|].
    now apply Qle_trans with (inject_Z z).
Qed.

Lemma Qfloor_div_int (q : Q) (n : Z) :
  0 < n -> Qfloor (q / inject_Z n) = Qfloor q / n.
Proof.
  intros Hn. set (F := Qfloor q).
  pose proof (Qfloor_le q) as F1. pose proof (Qlt_floor q) as F2. fold F in F1, F2.
  pose proof (Z.mul_div_le F n Hn) as D1.
  pose proof (Z.mul_succ_div_gt F n Hn) as D2.
  assert (Hnq : (0 < inject_Z n)%Q)
    by (change (inject_Z 0 < inject_Z n)%Q; rewrite <- Zlt_Qlt; exact Hn).
  apply Qfloor_unique.
  - apply Qle_shift_div_l; [exact Hnq|].
    rewrite <- inject_Z_mult. apply Qle_trans with (inject_Z F); [|exact F1].
    rewrite <- Zle_Qle. lia.
  - apply Qlt_shift_div_r; [exact Hnq|].
    rewrite <- inject_Z_mult. apply Qlt_le_trans with (inject_Z (F + 1)); [exact F2|].
    rewrite <- Zle_Qle. lia.
Qed.

Lemma inject_Z_sub (a b : Z) : (inject_Z (a - b) == inject_Z a - inject_Z b)%Q.
Proof. unfold Qeq; cbn; lia. Qed.

Lemma Qfloor_sub_int (q : Q) (z : Z) : Qfloor (q - inject_Z z) = Qfloor q - z.
Proof.
  pose proof (Qfloor_le q) as F1. pose proof (Qlt_floor q) as F2.
  apply Qfloor_unique.
  - rewrite inject_Z_sub. apply Qplus_le_compat; [exact F1|apply Qle_refl].
  - replace (Qfloor q - z + 1) with (Qfloor q + 1 - z) by lia.
    rewrite inject_Z_sub. apply Qplus_lt_le_compat; [exact F2|apply Qle_refl].
Qed.

Lemma string_to_uint_to_string (u : Decimal.uint) :
  string_to_uint (uint_to_string u) = Some u.
Proof. induction u; cbn; rewrite ?IHu; reflexivity. Qed.

Lemma split_colon_digits (u : Decimal.uint) (rest : string) :
  split_colon (uint_to_string u ++ String ":" rest) = Some (uint_to_string u, rest).
Proof. induction u; cbn; rewrite ?IHu; reflexivity. Qed.

Lemma int_to_string_nonneg (z : Z) :
  0 <= z -> exists u, int_to_string z = uint_to_string u /\ Z.of_uint u = z.
Proof.
  intros Hz. pose proof (DecimalZ.of_to z) as H. unfold int_to_string.
  destruct (Z.to_int z) as [u|u] eqn:E.
  - exists u. split; [reflexivity|exact H].
  - exfalso. destruct z; cbn in E; [discriminate|discriminate|lia].
Qed.

Lemma seconds_field_ok :
  forallb (fun n =>
             let s := padStart 2 "0" (int_to_string (Z.of_nat n)) in
             (Nat.eqb (String.length s) 2 &&
              match string_to_uint s with
              | Some u => Z.eqb (Z.of_uint u) (Z.of_nat n)
              | None => false
              end)%bool)
          (seq 0 60) = true.
Proof. vm_compute. reflexivity. Qed.

Lemma seconds_field (z : Z) :
  0 <= z < 60 ->
  String.length (padStart 2 "0" (int_to_string z)) = 2%nat /\
  exists u, string_to_uint (padStart 2 "0" (int_to_string z)) = Some u /\
            Z.of_uint u = z.
Proof.
  intros Hz. pose proof seconds_field_ok as H.
  rewrite forallb_forall in H. specialize (H (Z.to_nat z)).
  rewrite Z2Nat.id in H by lia.
  assert (Hin : In (Z.to_nat z) (seq 0 60)) by (apply in_seq; lia).
  specialize (H Hin). cbv zeta in H.
  apply andb_true_iff in H as [H1 H2]. apply Nat.eqb_eq in H1.
  split; [exact H1|].
  destruct (string_to_uint (padStart 2 "0" (int_to_string z))) as [u|]; [|discriminate].
  exists u. split; [reflexivity|]. now apply Z.eqb_eq.
Qed.

(** X19: for a positive time [q], [formatTime] shows [floor(q) / 60] minutes
    and a two-character seconds field, and reading the text back gives
    [floor(q)] seconds. *)
Theorem formatTime_positive (q : Q) (H : (0 < q)%Q) :
  exists secs,
    formatTime (Num q) = (int_to_string (Qfloor q / 60) ++ ":" ++ secs)%string /\
    String.length secs = 2%nat /\
    parse_time (formatTime (Num q)) = Some (Qfloor q).
Proof.
  set (F := Qfloor q).
  assert (HF : 0 <= F).
  { change 0 with (Qfloor 0). apply Qfloor_resp_le. now apply Qlt_le_weak. }
  assert (Hq60 : Qfloor (q / 60) = F / 60)
    by (change (q / 60)%Q with (q / inject_Z 60)%Q; apply Qfloor_div_int; lia).
  assert (Hle : Qle_bool 0 (q / 60) = true).
  { apply Qle_bool_iff. apply Qle_shift_div_l; [reflexivity|].
    rewrite Qmult_0_l. now apply Qlt_le_weak. }
  assert (Hsec : Qfloor (q - 60 * inject_Z (F / 60)) = F mod 60).
  { rewrite Z.mod_eq by lia. unfold F at 2. rewrite <- Qfloor_sub_int.
    apply Qfloor_comp. rewrite inject_Z_mult. reflexivity. }
  assert (Hfmt : formatTime (Num q)
                 = (int_to_string (F / 60) ++ ":" ++
                    padStart 2 "0" (int_to_string (F mod 60)))%string).
  { unfold formatTime, js_falsy, js_isNaN.
    destruct (Qeq_bool q 0) eqn:E.
    - apply Qeq_bool_eq in E. rewrite E in H. discriminate.
    - cbn [orb js_divq js_modq js_floor js_int_to_string].
      unfold Qtrunc. rewrite Hle, Qfloor_Z, Hq60, Qfloor_Z, Hsec. reflexivity. }
  pose proof (Z.mod_pos_bound F 60 ltac:(lia)) as Hm.
  destruct (seconds_field (F mod 60) Hm) as (Hlen & us & Hus & Hzus).
  destruct (int_to_string_nonneg (F / 60) ltac:(apply Z.div_pos; lia)) as (um & Hum & Hzum).
  exists (padStart 2 "0" (int_to_string (F mod 60))). split; [exact Hfmt|].
  split; [exact Hlen|].
  rewrite Hfmt, Hum. unfold parse_time.
  change (":" ++ ?s)%string with (String ":" s).
  rewrite split_colon_digits, string_to_uint_to_string, Hus, Hzum, Hzus.
  f_equal. pose proof (Z.div_mod F 60 ltac:(lia)). lia.
Qed.

Lemma formatTime_positive_witness :
  (0 < 3725 # 2)%Q /\
  exists secs,
    formatTime (Num (3725 # 2)) = (int_to_string (Qfloor (3725 # 2) / 60) ++ ":" ++ secs)%string /\
    String.length secs = 2%nat /\
    parse_time (formatTime (Num (3725 # 2))) = Some 1862.
Proof.
  assert (H : (0 < 3725 # 2)%Q) by reflexivity.
  split; [exact H|]. exact (formatTime_positive (3725 # 2) H).
Defined.

(** X20: [formatTime] shows ["0:00"] for [0] and [NaN]; the guard does not
    catch infinities: [Infinity] is shown as ["Infinity:NaN"] and
    [-Infinity] as ["-Infinity:NaN"]. *)
Theorem formatTime_guard (q : Q) :
  ((q == 0)%Q -> formatTime (Num q) = "0:00"%string) /\
  formatTime NaN = "0:00"%string /\
  formatTime PosInf = "Infinity:NaN"%string /\
  formatTime NegInf = "-Infinity:NaN"%string.
Proof.
  split; [|repeat split].
  intros H. unfold formatTime, js_falsy.
  apply Qeq_bool_iff in H. now rewrite H.
Qed.

Lemma formatTime_guard_witness :
  (0 # 7 == 0)%Q /\ formatTime (Num (0 # 7)) = "0:00"%string.
Proof.
  assert (H : (0 # 7 == 0)%Q) by reflexivity.
  split; [exact H|]. exact (proj1 (formatTime_guard (0 # 7)) H).
Defined.

Open Scope Q_scope.

Lemma run_loop_total {A} (body : nat -> Res (list A)) (l : list nat) :
  (forall i, exists cs, body i = Ok cs) ->
  run_loop body l
  = Ok (flat_map (fun i => match body i with Ok cs => cs | Throw _ => [] end) l).
Proof.
  intros H. apply run_loop_ok. intros i.
  destruct (H i) as (cs & Hi). now rewrite Hi.
Qed.

Lemma circ_bar_ok (cos sin : Q -> Q) (other : string -> bool) (color : string)
    (sensitivity cx cy radius angleStep : Q) (d : snapshot) (i : nat)
    (H40 : css_color other (color ++ "40") = true)
    (Hc : css_color other color = true) :
  exists cs,
    circ_bar cos sin other color sensitivity cx cy radius angleStep d i = Ok cs /\
    forall rest,
      circ_segments (cs ++ rest)
      = (let angle := Q_of_nat i * angleStep in
         let h := byte_at d i / 255 * 60 * sensitivity in
         ((cx + cos angle * radius, cy + sin angle * radius),
          (cx + cos angle * (radius + h), cy + sin angle * (radius + h))))
        :: circ_segments rest.
Proof.
  unfold circ_bar. cbv zeta.
  rewrite addColorStops_ok.
  - eexists. split; [reflexivity|]. intros rest. reflexivity.
  - repeat constructor; cbn [fst snd].
    + now rewrite H40.
    + now rewrite Hc.
Qed.

Lemma circ_segments_bars (cos sin : Q -> Q) (other : string -> bool) (color : string)
    (sensitivity cx cy radius angleStep : Q) (d : snapshot) (l : list nat)
    (rest : list CircCmd)
    (H40 : css_color other (color ++ "40") = true)
    (Hc : css_color other color = true) :
  circ_segments
    (flat_map (fun i => match circ_bar cos sin other color sensitivity cx cy radius
                                       angleStep d i with
                        | Ok cs => cs | Throw _ => [] end) l ++ rest)
  = map (fun i =>
           let angle := Q_of_nat i * angleStep in
           let h := byte_at d i / 255 * 60 * sensitivity in
           ((cx + cos angle * radius, cy + sin angle * radius),
            (cx + cos angle * (radius + h), cy + sin angle * (radius + h)))) l
    ++ circ_segments rest.
Proof.
  induction l as [|i l IH]; [reflexivity|].
  cbn [flat_map map]. rewrite <- app_assoc.
  destruct (circ_bar_ok cos sin other color sensitivity cx cy radius angleStep d i H40 Hc)
    as (cs & Hcs & Hseg).
  rewrite Hcs, Hseg, IH. reflexivity.
Qed.

Lemma nth_map_seq {A} (f : nat -> A) (n i : nat) (dflt : A) :
  (i < n)%nat -> nth i (map f (seq 0 n)) dflt = f i.
Proof.
  intros Hi. rewrite (nth_indep _ dflt (f 0%nat)) by (rewrite length_map, length_seq; exact Hi).
  rewrite map_nth, seq_nth by exact Hi. reflexivity.
Qed.

(** X21: whatever [Math.cos], [Math.sin] and [Math.PI] are, for a [color]
    prop whose gradient stops [color + '40'] and [color] parse as CSS
    colors, [drawCircular] completes without exception and draws one
    segment per bin; segment [i] starts at [radius] along angle
    [i * 2 PI / N] from the centre and ends [byte / 255 * 60 * sensitivity]
    further along it; when [cos^2 + sin^2 = 1] at that angle the two ends
    lie at distances [radius] and [radius + barHeight] from the centre. *)
Theorem drawCircular_radial_bars (cos sin : Q -> Q) (PI : Q) (other : string -> bool)
    (color : string) (sensitivity : Q) (canvas : Canvas) (d : snapshot)
    (H40 : css_color other (color ++ "40") = true)
    (Hc : css_color other color = true) :
  let cx := c_width canvas / 2 in
  let cy := c_height canvas / 2 in
  let radius := math_min (c_width canvas) (c_height canvas) / 4 in
  exists cs,
    drawCircular cos sin PI other color sensitivity canvas d = Ok cs /\
    length (circ_segments cs) = length d /\
    forall i, (i < length d)%nat ->
      let angle := Q_of_nat i * (2 * PI / Q_of_nat (length d)) in
      let h := byte_at d i / 255 * 60 * sensitivity in
      nth i (circ_segments cs) ((0, 0), (0, 0))
        = ((cx + cos angle * radius, cy + sin angle * radius),
           (cx + cos angle * (radius + h), cy + sin angle * (radius + h))) /\
      (cos angle * cos angle + sin angle * sin angle == 1 ->
       let '((x1, y1), (x2, y2)) := nth i (circ_segments cs) ((0, 0), (0, 0)) in
       (x1 - cx) * (x1 - cx) + (y1 - cy) * (y1 - cy) == radius * radius /\
       (x2 - cx) * (x2 - cx) + (y2 - cy) * (y2 - cy) == (radius + h) * (radius + h)).
Proof.
  intros cx cy radius.
  set (angleStep := 2 * PI / Q_of_nat (length d)).
  set (body := circ_bar cos sin other color sensitivity cx cy radius angleStep d).
  assert (Hloop : run_loop body (seq 0 (length d))
                  = Ok (flat_map (fun i => match body i with Ok cs => cs | Throw _ => [] end)
                                 (seq 0 (length d)))).
  { apply run_loop_total. intros i.
    destruct (circ_bar_ok cos sin other color sensitivity cx cy radius angleStep d i H40 Hc)
      as (cs & Hcs & _).
    exists cs. exact Hcs. }
  eexists. split.
  { unfold drawCircular. fold cx cy radius angleStep body. rewrite Hloop. reflexivity. }
  set (segs := circ_segments _).
  assert (Hsegs : segs =
    map (fun i =>
           let angle := Q_of_nat i * (2 * PI / Q_of_nat (length d)) in
           let h := byte_at d i / 255 * 60 * sensitivity in
           ((cx + cos angle * radius, cy + sin angle * radius),
            (cx + cos angle * (radius + h), cy + sin angle * (radius + h))))
        (seq 0 (length d))).
  { unfold segs. cbn [app circ_segments]. unfold body.
    rewrite circ_segments_bars by assumption. cbn. now rewrite app_nil_r. }
  split.
  - rewrite Hsegs, length_map. apply length_seq.
  - intros i Hi angle h.
    assert (Hn : nth i segs ((0, 0), (0, 0))
                 = ((cx + cos angle * radius, cy + sin angle * radius),
                    (cx + cos angle * (radius + h), cy + sin angle * (radius + h)))).
    { rewrite Hsegs. now rewrite nth_map_seq by exact Hi. }
    split; [exact Hn|]. rewrite Hn. intros Hpy. split.
    + setoid_replace ((cx + cos angle * radius - cx) * (cx + cos angle * radius - cx) +
                      (cy + sin angle * radius - cy) * (cy + sin angle * radius - cy))
        with ((cos angle * cos angle + sin angle * sin angle) * (radius * radius)) by ring.
      rewrite Hpy. ring.
    + setoid_replace ((cx + cos angle * (radius + h) - cx) * (cx + cos angle * (radius + h) - cx) +
                      (cy + sin angle * (radius + h) - cy) * (cy + sin angle * (radius + h) - cy))
        with ((cos angle * cos angle + sin angle * sin angle) * ((radius + h) * (radius + h)))
        by ring.
      rewrite Hpy. ring.
Qed.

Lemma drawCircular_radial_bars_witness :
  let cos := fun _ : Q => 1%Q in
  let sin := fun _ : Q => 0%Q in
  let other := fun _ : string => false in
  let canvas := mkCanvas 400 300 in
  let d : snapshot := [255; 0]%Z in
  css_color other ("#3b82f6" ++ "40") = true /\
  css_color other "#3b82f6" = true /\
  exists cs, drawCircular cos sin 3 other "#3b82f6" 1 canvas d = Ok cs /\
             length (circ_segments cs) = 2%nat.
Proof.
  intros cos sin other canvas d.
  assert (H40 : css_color other ("#3b82f6" ++ "40") = true) by reflexivity.
  assert (Hc : css_color other "#3b82f6" = true) by reflexivity.
  split; [exact H40|]. split; [exact Hc|].
  destruct (drawCircular_radial_bars cos sin 3 other "#3b82f6" 1 canvas d H40 Hc)
    as (cs & Hd & Hl & _).
  exists cs. split; [exact Hd|exact Hl].
Defined.

Close Scope Q_scope.

(** X10: while the module holds a context, analyser, gain node and source,
    [initializeAudioContext(e)] returns [isInitialized = true] for any
    argument (another element included) and only replaces the buffer by
    [frequencyBinCount] zero bytes: no object is created, no element is
    tapped and no connection is made. *)
Theorem initialize_when_wired_keeps_graph (e : option nat) (s : St) (c a g n : nat)
  (Hc : audioContext (st_mod s) = Some c) (Ha : analyser (st_mod s) = Some a)
  (Hg : gainNode (st_mod s) = Some g) (Hs : source (st_mod s) = Some n) :
  let s' := snd (initializeAudioContext e s) in
  fst (initializeAudioContext e s) = Ok true /\
  st_mod s' = mkMod (Some c) (Some a) (Some (repeat 0 frequencyBinCount)) (Some n) (Some g) /\
  w_next (st_world s') = w_next (st_world s) /\
  w_tapped (st_world s') = w_tapped (st_world s) /\
  w_edges (st_world s') = w_edges (st_world s) /\
  w_gain (st_world s') = w_gain (st_world s).
Proof.
  destruct s as [[ac an da so gn] [nx tm cx tp ed gs]]; cbn in *; subst.
  run_module; crunch; repeat split.
Qed.

Lemma initialize_when_wired_keeps_graph_witness :
  let s := snd (initializeAudioContext (Some 7%nat) initial_state) in
  audioContext (st_mod s) = Some 0%nat /\ analyser (st_mod s) = Some 1%nat /\
  gainNode (st_mod s) = Some 2%nat /\ source (st_mod s) = Some 3%nat /\
  fst (initializeAudioContext (Some 8%nat) s) = Ok true /\
  w_tapped (st_world (snd (initializeAudioContext (Some 8%nat) s)))
    = w_tapped (st_world s).
Proof.
  intros s.
  assert (Hc : audioContext (st_mod s) = Some 0%nat) by reflexivity.
  assert (Ha : analyser (st_mod s) = Some 1%nat) by reflexivity.
  assert (Hg : gainNode (st_mod s) = Some 2%nat) by reflexivity.
  assert (Hs : source (st_mod s) = Some 3%nat) by reflexivity.
  destruct (initialize_when_wired_keeps_graph (Some 8%nat) s 0 1 2 3 Hc Ha Hg Hs)
    as (H1 & _ & _ & H4 & _).
  repeat split; assumption.
Defined.










(* ------------------------------------------------------------------ *)
(** ** The length of [dataArray] *)

Lemma pres_bind {A B} (m : M A) (k : A -> M B) :
  preserves m -> (forall a, preserves (k a)) -> preserves (bind m k).
Proof.
  intros Hm Hk s Hs. unfold bind. specialize (Hm s Hs).
  destruct (m s) as [[a|e] s'] eqn:E; simpl in *; auto. apply Hk, Hm.
Qed.

Lemma pres_try_catch {A} (m : M A) (h : string -> M A) :
  preserves m -> (forall e, preserves (h e)) -> preserves (try_catch m h).
Proof.
  intros Hm Hh s Hs. unfold try_catch. specialize (Hm s Hs).
  destruct (m s) as [[a|e] s'] eqn:E; simpl in *; auto. apply Hh, Hm.
Qed.

Lemma pres_ret {A} (a : A) : preserves (ret a).
Proof. intros s Hs. exact Hs. Qed.

Lemma pres_throw {A} (e : string) : preserves (@throw A e).
Proof. intros s Hs. exact Hs. Qed.

Lemma pres_get_mod : preserves get_mod.
Proof. intros s Hs. exact Hs. Qed.

Lemma pres_get_world : preserves get_world.
Proof. intros s Hs. exact Hs. Qed.

Lemma pres_modify_world f : preserves (modify_world f).
Proof. intros s Hs. exact Hs. Qed.

Lemma pres_fresh : preserves fresh.
Proof. intros s Hs. exact Hs. Qed.

Lemma pres_set_audioContext v : preserves (set_audioContext v).
Proof. intros s Hs. exact Hs. Qed.

Lemma pres_set_analyser v : preserves (set_analyser v).
Proof. intros s Hs. exact Hs. Qed.

Lemma pres_set_source v : preserves (set_source v).
Proof. intros s Hs. exact Hs. Qed.

Lemma pres_set_gainNode v : preserves (set_gainNode v).
Proof. intros s Hs. exact Hs. Qed.

Lemma pres_set_dataArray_none : preserves (set_dataArray None).
Proof. intros s Hs da H. discriminate H. Qed.

Lemma pres_set_dataArray_zeros (z : Z) :
  preserves (set_dataArray (Some (repeat z frequencyBinCount))).
Proof.
  intros s Hs da H. injection H as <-. reflexivity.
Qed.

Lemma getFrequencyData_length bins s d :
  DInv s -> fst (getFrequencyData bins s) = Ok (Some d) ->
  DInv (snd (getFrequencyData bins s)) /\ length d = frequencyBinCount.
Proof.
  intros Hs Hr. destruct s as [[ac an da so gn] w].
  unfold DInv in *. cbn in *.
  destruct an, da as [da|]; cbn in *; try discriminate Hr.
  injection Hr as <-. rewrite byte_copy_length.
  split; [intros x Hx; injection Hx as <-; rewrite byte_copy_length|]; auto.
Qed.

Lemma pres_getFrequencyData bins : preserves (getFrequencyData bins).
Proof.
  intros [[ac an da so gn] w] Hs. unfold DInv in *. cbn in *.
  destruct an, da as [da|]; cbn; auto.
  intros x Hx. injection Hx as <-. rewrite byte_copy_length. auto.
Qed.

Lemma pres_getTimeDomainData wave : preserves (getTimeDomainData wave).
Proof.
  intros [[ac an da so gn] w] Hs. unfold DInv in *. cbn in *.
  destruct an, da as [da|]; cbn; auto.
  intros x Hx. injection Hx as <-. rewrite byte_copy_length. auto.
Qed.

Ltac pres :=
  repeat match goal with
  | |- preserves (bind _ _) => apply pres_bind; [| intro]
  | |- preserves (try_catch _ _) => apply pres_try_catch; [| intro]
  | |- preserves (ret _) => apply pres_ret
  | |- preserves (throw _) => apply pres_throw
  | |- preserves get_mod => apply pres_get_mod
  | |- preserves get_world => apply pres_get_world
  | |- preserves (modify_world _) => apply pres_modify_world
  | |- preserves fresh => apply pres_fresh
  | |- preserves (set_audioContext _) => apply pres_set_audioContext
  | |- preserves (set_analyser _) => apply pres_set_analyser
  | |- preserves (set_source _) => apply pres_set_source
  | |- preserves (set_gainNode _) => apply pres_set_gainNode
  | |- preserves (set_dataArray None) => apply pres_set_dataArray_none
  | |- preserves (set_dataArray (Some (repeat _ _))) => apply pres_set_dataArray_zeros
  | |- preserves (getFrequencyData _) => apply pres_getFrequencyData
  | |- preserves (getTimeDomainData _) => apply pres_getTimeDomainData
  | |- preserves (match ?x with _ => _ end) => destruct x
  | |- preserves (if ?b then _ else _) => destruct b
  end.

Ltac unfold_module :=
  cbv [initializeAudioContext connectAnalyzer getAverageFrequency
       getBassFrequency_st getMidFrequency_st getTrebleFrequency_st detectBeat
       setVolume getAudioContextState resumeAudioContext cleanupAudioContext
       get_or_create_context get_or_create_analyser get_or_create_gain
       new_AudioContext set_ctx_state ctx_state ctx_resume resume_settles
       ctx_close createAnalyser createGain createMediaElementSource connect
       disconnect setValueAtTime].

Lemma mod_call_inv c s : DInv s -> DInv (mod_call c s).
Proof.
  revert s. destruct c; cbv [mod_call];
    match goal with |- forall s, DInv s -> DInv (snd (?m s)) => change (preserves m) end;
    unfold_module; pres.
Qed.

Lemma run_calls_inv cs s : DInv s -> DInv (run_calls cs s).
Proof.
  revert s. induction cs as [|c cs IH]; intros s Hs; simpl; auto.
  apply IH, mod_call_inv, Hs.
Qed.

(** X23: whatever exported functions of [utils/audioContext.js] a caller
    runs, in whatever order, from the module's initial state, [dataArray]
    is [null] or holds [frequencyBinCount] = 128 bytes; so every snapshot
    [getFrequencyData()] returns, the one the band getters split, has 128
    bins. The module sets [fftSize = 256] on the analyser it creates and
    never changes it; the model takes it that no caller changes it on the
    analyser the module hands out. The remaining exports
    ([isAudioContextSupported], [getAudioContext], [getAnalyser],
    [getGainNode]) only read. *)
Theorem dataArray_holds_frequencyBinCount (calls : list ModCall) :
  let s := run_calls calls initial_state in
  (forall da, dataArray (st_mod s) = Some da -> length da = 128%nat) /\
  (forall bins d, fst (getFrequencyData bins s) = Ok (Some d) -> length d = 128%nat).
Proof.
  intros s.
  assert (Hs : DInv s).
  { apply run_calls_inv. intros da H. discriminate H. }
  split.
  - exact Hs.
  - intros bins d Hd. apply (getFrequencyData_length bins s d Hs Hd).
Qed.
